(** * chromite [lib/cros_build_lib.py]: the command execution core

    A shallow embedding of [RunCommand] (the current calling convention) and
    [OldRunCommand] (the legacy one, with its retry loop), together with the
    diagnostic helpers [Info] and [Warning] they call.

    Python's exceptions, the process-wide SIGINT handler slot, the stderr
    diagnostics and the [subprocess] module are effects: they are modelled
    by a state-and-exception monad [Py] over an explicit [world]. *)

From Stdlib Require Import String Ascii List ZArith Bool Arith Lia DecimalString.
Import ListNotations.
Local Open Scope string_scope.

(** ** Python values *)

(** A command is what [subprocess.Popen] accepts: a single string
    ([isinstance(cmd, basestring)]) or a sequence of argument tokens. *)
Inductive command :=
| CmdStr (s : string)
| CmdList (argv : list string).

(** Values that are [None] or a string ([input], [error_message], the two
    halves of [communicate()]'s result) are [option string]. *)
Definition truthy (v : option string) : bool :=
  match v with
  | None => false
  | Some EmptyString => false
  | Some _ => true
  end.

(** [a or b] on such values: the first operand when it is truthy. *)
Definition py_or (a b : option string) : option string :=
  if truthy a then a else b.

(** [v or ''], whose value is always a string. *)
Definition or_empty (v : option string) : string :=
  match v with
  | Some s => s
  | None => EmptyString
  end.

(** A newline and a double quote, as one-character strings. *)
Definition NL : string := String (ascii_of_nat 10) EmptyString.
Definition DQ : string := String (ascii_of_nat 34) EmptyString.

(** [proc.returncode] used as a condition. *)
Definition nonzero (code : Z) : bool := negb (code =? 0)%Z.

(** [' '.join(argv)]. *)
Definition join_spaces (argv : list string) : string := String.concat " " argv.

(** The exceptions that play a role.  [KeyboardInterrupt] derives from
    [BaseException] only, so [except Exception] lets it through. *)
Inductive exn :=
| RunCommandError (msg : string)
| RunCommandException (msg : string)
| OSError (msg : string)
| TypeError (msg : string)
| KeyboardInterrupt.

Definition is_Exception (e : exn) : bool :=
  match e with
  | KeyboardInterrupt => false
  | _ => true
  end.

Definition is_RunCommandException (e : exn) : bool :=
  match e with
  | RunCommandException _ => true
  | _ => false
  end.

(** [str(e)]. *)
Definition str_exn (e : exn) : string :=
  match e with
  | RunCommandError m | RunCommandException m | OSError m | TypeError m => m
  | KeyboardInterrupt => EmptyString
  end.

(** ** The environment: signals, child processes, diagnostics *)

(** Dispositions of SIGINT as [signal.signal] sees them. *)
Inductive sighandler :=
| SIG_DFL
| SIG_IGN
| PyHandler (id : nat).

(** [None] versus [subprocess.PIPE] for one of the three standard streams. *)
Inductive redirect :=
| Inherit
| PIPE.

Record popen_args := {
  pa_cmd : command;
  pa_cwd : option string;
  pa_stdin : redirect;
  pa_stdout : redirect;
  pa_stderr : redirect;
  pa_shell : bool;
  pa_env : option (list (string * string))
}.

(** What a spawned child does, given the bytes written to its stdin pipe
    ([None] when it inherits the parent's stdin): [communicate] either
    raises in the parent or the child terminates having written [out] and
    [err] and exits with [code]. *)
Inductive comm_outcome :=
| CommRaises (e : exn)
| Terminates (out err : string) (code : Z).

(** What happens to one [Popen] call: the child cannot be created, or it
    starts. *)
Inductive behaviour :=
| SpawnRaises (e : exn)
| Spawns (run : option string -> comm_outcome).

(** The object [Popen] returns. *)
Record process := {
  proc_args : popen_args;
  proc_run : option string -> comm_outcome
}.

Inductive event :=
| EvInfo (text : string)
| EvWarning (text : string)
| EvPopen (a : popen_args)
| EvSignal (h : sighandler)
| EvCommunicate (input : option string).

(** [children n] is the fate of the [n]-th [Popen] call of the process;
    [spawned] counts the calls made so far; [trace] is the chronological
    record of the effects performed. *)
Record world := {
  sigint : sighandler;
  children : nat -> behaviour;
  spawned : nat;
  trace : list event;
  _STDOUT_IS_TTY : bool;
  caller_name : string
}.

Definition set_sigint (h : sighandler) (w : world) : world :=
  {| sigint := h; children := children w; spawned := spawned w;
     trace := trace w; _STDOUT_IS_TTY := _STDOUT_IS_TTY w;
     caller_name := caller_name w |}.

Definition set_spawned (n : nat) (w : world) : world :=
  {| sigint := sigint w; children := children w; spawned := n;
     trace := trace w; _STDOUT_IS_TTY := _STDOUT_IS_TTY w;
     caller_name := caller_name w |}.

Definition log (e : event) (w : world) : world :=
  {| sigint := sigint w; children := children w; spawned := spawned w;
     trace := trace w ++ [e]; _STDOUT_IS_TTY := _STDOUT_IS_TTY w;
     caller_name := caller_name w |}.

(** ** The monad: state that survives a raised exception *)

Inductive outcome (A : Type) :=
| Ret (a : A)
| Raise (e : exn).
Arguments Ret {A} a.
Arguments Raise {A} e.

(** [L] is the type of the local variables that the body of a function
    mutates; assignments made before an exception is raised stay visible
    to the handler. *)
Definition Py (L A : Type) : Type := world * L -> world * L * outcome A.

Section Monad.
Context {L : Type}.

Definition ret {A} (a : A) : Py L A := fun s => (s, Ret a).

Definition raise {A} (e : exn) : Py L A := fun s => (s, Raise e).

Definition bind {A B} (m : Py L A) (k : A -> Py L B) : Py L B :=
  fun s =>
    match m s with
    | (s', Ret a) => k a s'
    | (s', Raise e) => (s', Raise e)
    end.

(** [try: body / except: handler e]; the handler re-raises what it does
    not catch. *)
Definition try_except {A} (body : Py L A) (handler : exn -> Py L A) : Py L A :=
  fun s =>
    match body s with
    | (s', Ret a) => (s', Ret a)
    | (s', Raise e) => handler e s'
    end.

(** [try: body / finally: fin]. *)
Definition try_finally {A} (body : Py L A) (fin : Py L unit) : Py L A :=
  fun s =>
    match body s with
    | (s', r) =>
        match fin s' with
        | (s'', Ret _) => (s'', r)
        | (s'', Raise e) => (s'', Raise e)
        end
    end.

Definition get_local : Py L L := fun s => (s, Ret (snd s)).

Definition modify_local (f : L -> L) : Py L unit :=
  fun s => ((fst s, f (snd s)), Ret tt).

Definition get_world : Py L world := fun s => (s, Ret (fst s)).

Definition modify_world (f : world -> world) : Py L unit :=
  fun s => ((f (fst s), snd s), Ret tt).

Definition when (b : bool) (m : Py L unit) : Py L unit :=
  if b then m else ret tt.
End Monad.

Declare Scope py_scope.
Delimit Scope py_scope with py.
Notation "x <- m ;; k" := (bind m (fun x => k))
  (at level 61, m at next level, right associativity) : py_scope.
Notation "m ;; k" := (bind m (fun _ => k))
  (at level 61, right associativity) : py_scope.
Local Open Scope py_scope.

(** ** Diagnostics: [Color], [Info], [Warning] *)

Module Color.
Definition RED : Z := 1.
Definition YELLOW : Z := 3.
Definition BLUE : Z := 4.
Definition BOLD : Z := -1.

Definition ESC : string := String (ascii_of_nat 27) EmptyString.

(** ['%d' % n]. *)
Definition fmt_d (n : Z) : string := NilZero.string_of_int (Z.to_int n).

Definition COLOR_START (n : Z) : string := ESC ++ "[1;" ++ fmt_d n ++ "m".
Definition BOLD_START : string := ESC ++ "[1m".
Definition RESET : string := ESC ++ "[0m".

(** The method [Color.Color] of an instance built with [enabled]. *)
Definition Color (enabled : bool) (color : Z) (text : string) : string :=
  if negb enabled then text
  else
    let start := if (color =? BOLD)%Z then BOLD_START
                 else COLOR_START (color + 30) in
    start ++ text ++ RESET.
End Color.


Section Diagnostics.
Context {L : Type}.

Definition Warning (message : string) : Py L unit :=
  w <- get_world ;;
  modify_world
    (log (EvWarning (Color.Color (_STDOUT_IS_TTY w) Color.YELLOW
                       (NL ++ "WARNING: " ++ message)))).

Definition Info (message : string) : Py L unit :=
  w <- get_world ;;
  modify_world
    (log (EvInfo (Color.Color (_STDOUT_IS_TTY w) Color.BLUE
                    (NL ++ "INFO: " ++ message)))).
End Diagnostics.

(** ** [signal.signal] and [subprocess] *)

Section Primitives.
Context {L : Type}.

(** [signal.signal(signal.SIGINT, h)]: installs [h], returns the handler
    it replaces. *)
Definition signal_signal (h : sighandler) : Py L sighandler :=
  w <- get_world ;;
  modify_world (fun w => log (EvSignal h) (set_sigint h w)) ;;
  ret (sigint w).

(** [subprocess.Popen(...)]. *)
Definition Popen (a : popen_args) : Py L process :=
  w <- get_world ;;
  modify_world (fun w => log (EvPopen a) (set_spawned (S (spawned w)) w)) ;;
  match children w (spawned w) with
  | SpawnRaises e => raise e
  | Spawns run => ret {| proc_args := a; proc_run := run |}
  end.

(** [proc.communicate(input)], returning the pair it returns together
    with the [proc.returncode] it leaves behind.  A stream that is not a
    pipe yields [None]; [input] reaches the child only through a pipe. *)
Definition communicate (proc : process) (input : option string)
  : Py L (option string * option string * Z) :=
  modify_world (log (EvCommunicate input)) ;;
  let fed :=
    match pa_stdin (proc_args proc) with
    | PIPE => Some (or_empty input)
    | Inherit => None
    end in
  match proc_run proc fed with
  | CommRaises e => raise e
  | Terminates out err code =>
      ret (match pa_stdout (proc_args proc) with
           | PIPE => Some out | Inherit => None end,
           match pa_stderr (proc_args proc) with
           | PIPE => Some err | Inherit => None end,
           code)
  end.
End Primitives.

(** ** [RunCommand] *)

Module CommandResult.
Record t := {
  cmd : option command;
  error : option string;
  output : option string;
  returncode : option Z
}.

(** [CommandResult()]. *)
Definition init : t :=
  {| cmd := None; error := None; output := None; returncode := None |}.

Definition set_cmd (c : command) (r : t) : t :=
  {| cmd := Some c; error := error r; output := output r;
     returncode := returncode r |}.

Definition set_output_error (o e : option string) (r : t) : t :=
  {| cmd := cmd r; error := e; output := o; returncode := returncode r |}.

Definition set_returncode (c : Z) (r : t) : t :=
  {| cmd := cmd r; error := error r; output := output r;
     returncode := Some c |}.
End CommandResult.

(** The keyword arguments of [RunCommand]. *)
Module RC.
Record kwargs := {
  print_cmd : bool;
  error_ok : bool;
  error_message : option string;
  exit_code : bool;
  redirect_stdout : bool;
  redirect_stderr : bool;
  cwd : option string;
  input : option string;
  enter_chroot : bool;
  shell : bool;
  env : option (list (string * string));
  ignore_sigint : bool
}.

(** The defaults of the signature. *)
Definition default : kwargs :=
  {| print_cmd := true; error_ok := false; error_message := None;
     exit_code := false; redirect_stdout := false;
     redirect_stderr := false; cwd := None; input := None;
     enter_chroot := false; shell := false; env := None;
     ignore_sigint := false |}.
End RC.

Definition pipe_if (b : bool) : redirect := if b then PIPE else Inherit.

(** Lines 76-81: the chroot rewrite and the rendered command line. *)
Definition rewrite_cmd (enter_chroot : bool) (cmd : command) : command :=
  match cmd with
  | CmdStr s =>
      if enter_chroot then CmdStr ("./enter_chroot.sh -- " ++ s) else CmdStr s
  | CmdList argv =>
      if enter_chroot then CmdList (["./enter_chroot.sh"; "--"] ++ argv)
      else CmdList argv
  end.

Definition render (cmd : command) : string :=
  match cmd with
  | CmdStr s => s
  | CmdList argv => join_spaces argv
  end.

(** Lines 103-104. *)
Definition failure_message (cmd_str : string) (error_message error output : option string)
  : string :=
  "Command " ++ DQ ++ cmd_str ++ DQ ++ " failed." ++ NL
  ++ or_empty (py_or (py_or (py_or error_message error) output) (Some EmptyString)).

Definition RunCommand_body (cmd : command) (kw : RC.kwargs)
  : Py CommandResult.t CommandResult.t :=
  let stdout := pipe_if (RC.redirect_stdout kw) in
  let stderr := pipe_if (RC.redirect_stderr kw) in
  let stdin := pipe_if (truthy (RC.input kw)) in
  let cmd := rewrite_cmd (RC.enter_chroot kw) cmd in
  let cmd_str := render cmd in
  when (RC.print_cmd kw) (Info ("RunCommand: " ++ cmd_str)) ;;
  modify_local (CommandResult.set_cmd cmd) ;;
  try_except
    (proc <- Popen {| pa_cmd := cmd; pa_cwd := RC.cwd kw; pa_stdin := stdin;
                      pa_stdout := stdout; pa_stderr := stderr;
                      pa_shell := RC.shell kw; pa_env := RC.env kw |} ;;
     old_sigint <- (if RC.ignore_sigint kw
                    then h <- signal_signal SIG_IGN ;; ret (Some h)
                    else ret None) ;;
     returncode <-
       try_finally
         (r <- communicate proc (RC.input kw) ;;
          modify_local
            (CommandResult.set_output_error (fst (fst r)) (snd (fst r))) ;;
          ret (snd r))
         (if RC.ignore_sigint kw
          then match old_sigint with
               | Some h => signal_signal h ;; ret tt
               | None => ret tt
               end
          else ret tt) ;;
     when (RC.exit_code kw)
          (modify_local (CommandResult.set_returncode returncode)) ;;
     cmd_result <- get_local ;;
     if negb (RC.error_ok kw) && nonzero returncode
     then raise (RunCommandError
                   (failure_message cmd_str (RC.error_message kw)
                      (CommandResult.error cmd_result)
                      (CommandResult.output cmd_result)))
     else ret tt)
    (fun e =>
       if is_Exception e
       then if negb (RC.error_ok kw) then raise e else Warning (str_exn e)
       else raise e) ;;
  get_local.

(** A call of [RunCommand]: the body run on a fresh [CommandResult()]. *)
Definition RunCommand (cmd : command) (kw : RC.kwargs) (w : world)
  : world * outcome CommandResult.t :=
  let '(w', _, r) := RunCommand_body cmd kw (w, CommandResult.init) in (w', r).

(** ** [repr] and [%s], as the legacy messages use them *)

Module Repr.
(** CPython 2 renders a [str] between single quotes, or between double
    quotes when it holds a single quote and no double quote; it escapes
    the quote in use, the backslash, tab, newline and carriage return, and
    writes every other byte outside the printable range as [\xNN]. *)
Definition BACKSLASH : ascii := ascii_of_nat 92.

Fixpoint mem (c : ascii) (s : string) : bool :=
  match s with
  | EmptyString => false
  | String d rest => if Ascii.eqb c d then true else mem c rest
  end.

Definition hex_digit (n : nat) : ascii :=
  if (n <? 10)%nat then ascii_of_nat (48 + n) else ascii_of_nat (87 + n).

Definition escape_char (quote c : ascii) : string :=
  let n := nat_of_ascii c in
  if Ascii.eqb c quote || Ascii.eqb c BACKSLASH
  then String BACKSLASH (String c EmptyString)
  else if (n =? 9)%nat then String BACKSLASH "t"
  else if (n =? 10)%nat then String BACKSLASH "n"
  else if (n =? 13)%nat then String BACKSLASH "r"
  else if (n <? 32)%nat || (127 <=? n)%nat
  then String BACKSLASH
         (String "x"%char (String (hex_digit (n / 16))
                             (String (hex_digit (n mod 16)) EmptyString)))
  else String c EmptyString.

Fixpoint escape (quote : ascii) (s : string) : string :=
  match s with
  | EmptyString => EmptyString
  | String c rest => escape_char quote c ++ escape quote rest
  end.

Definition repr_str (s : string) : string :=
  let quote :=
    if mem (ascii_of_nat 39) s && negb (mem (ascii_of_nat 34) s)
    then ascii_of_nat 34 else ascii_of_nat 39 in
  String quote (escape quote s ++ String quote EmptyString).

Definition repr_list (argv : list string) : string :=
  "[" ++ String.concat ", " (map repr_str argv) ++ "]".

(** ['%r' % cmd]. *)
Definition repr (cmd : command) : string :=
  match cmd with
  | CmdStr s => repr_str s
  | CmdList argv => repr_list argv
  end.

(** ['%s' % cwd]. *)
Definition str_opt (v : option string) : string :=
  match v with
  | Some s => s
  | None => "None"
  end.
End Repr.

(** ** [OldRunCommand] *)

(** The keyword arguments of [OldRunCommand]. *)
Module ORC.
Record kwargs := {
  print_cmd : bool;
  error_ok : bool;
  error_message : option string;
  exit_code : bool;
  redirect_stdout : bool;
  redirect_stderr : bool;
  cwd : option string;
  input : option string;
  enter_chroot : bool;
  num_retries : nat
}.

Definition default : kwargs :=
  {| print_cmd := true; error_ok := false; error_message := None;
     exit_code := false; redirect_stdout := false;
     redirect_stderr := false; cwd := None; input := None;
     enter_chroot := false; num_retries := 0 |}.
End ORC.

(** [OldRunCommand] returns the exit code or the output. *)
Inductive legacy_result :=
| ReturnCode (code : Z)
| Output (output : option string).

(** How one pass through the body of a [for] loop ends. *)
Inductive control (A : Type) :=
| Next
| Break
| Return (a : A).
Arguments Next {A}.
Arguments Break {A}.
Arguments Return {A} a.

(** [for i in items: body i], followed by [after]. *)
Fixpoint for_in {L A I : Type} (items : list I) (body : I -> Py L (control A))
  (after : Py L A) : Py L A :=
  match items with
  | [] => after
  | i :: rest =>
      c <- body i ;;
      match c with
      | Next => for_in rest body after
      | Break => after
      | Return a => ret a
      end
  end.

(** Line 355: a list is prefixed; a string cannot be added to a list. *)
Definition legacy_rewrite_cmd {L : Type} (enter_chroot : bool) (cmd : command)
  : Py L command :=
  if enter_chroot then
    match cmd with
    | CmdList argv => ret (CmdList (["./enter_chroot.sh"; "--"] ++ argv))
    | CmdStr _ =>
        raise (TypeError ("can only concatenate list (not " ++ DQ ++ "str"
                            ++ DQ ++ ") to list"))
    end
  else ret cmd.

(** Lines 373-374. *)
Definition legacy_failure_message (cmd : command)
  (error_message error output : option string) : string :=
  "Command " ++ DQ ++ Repr.repr cmd ++ DQ ++ " failed." ++ NL
  ++ or_empty (py_or (py_or (py_or error_message error) output)
                 (Some EmptyString)).

(** Lines 363-382: one pass of the retry loop.  The local variable is
    [output]. *)
Definition attempt (cmd : command) (kw : ORC.kwargs) (stdin stdout stderr : redirect)
  (retry_count : nat) : Py (option string) (control legacy_result) :=
  try_except
    (proc <- Popen {| pa_cmd := cmd; pa_cwd := ORC.cwd kw; pa_stdin := stdin;
                      pa_stdout := stdout; pa_stderr := stderr;
                      pa_shell := false; pa_env := None |} ;;
     r <- communicate proc (ORC.input kw) ;;
     let output := fst (fst r) in
     let error := snd (fst r) in
     let returncode := snd r in
     modify_local (fun _ => output) ;;
     if ORC.exit_code kw && (retry_count =? ORC.num_retries kw)%nat
     then ret (Return (ReturnCode returncode))
     else if (returncode =? 0)%Z
     then ret Break
     else raise (RunCommandException
                   (legacy_failure_message cmd (ORC.error_message kw)
                      error output)))
    (fun e =>
       if is_RunCommandException e
       then if negb (ORC.error_ok kw) && (retry_count =? ORC.num_retries kw)%nat
            then raise e
            else
              Warning (str_exn e) ;;
              when (ORC.print_cmd kw)
                   (w <- get_world ;;
                    Info ("PROGRAM(" ++ caller_name w
                          ++ ") -> RunCommand: retrying " ++ Repr.repr cmd
                          ++ " in dir " ++ Repr.str_opt (ORC.cwd kw))) ;;
              ret Next
       else raise e).

(** The arguments of the [Popen] call of lines 364-365. *)
Definition legacy_popen_args (cmd : command) (kw : ORC.kwargs) : popen_args :=
  {| pa_cmd := cmd; pa_cwd := ORC.cwd kw;
     pa_stdin := pipe_if (truthy (ORC.input kw));
     pa_stdout := pipe_if (ORC.redirect_stdout kw);
     pa_stderr := pipe_if (ORC.redirect_stderr kw);
     pa_shell := false; pa_env := None |}.

(** [range(n)]. *)
Definition range (n : nat) : list nat := seq 0 n.

(** Lines 362-384: the loop over the given values of [retry_count], then
    [return output]. *)
Definition retry_loop (cmd : command) (kw : ORC.kwargs) (items : list nat)
  : Py (option string) legacy_result :=
  let stdout := pipe_if (ORC.redirect_stdout kw) in
  let stderr := pipe_if (ORC.redirect_stderr kw) in
  let stdin := pipe_if (truthy (ORC.input kw)) in
  for_in items
         (attempt cmd kw stdin stdout stderr)
         (output <- get_local ;; ret (Output output)).

Definition OldRunCommand_body (cmd : command) (kw : ORC.kwargs)
  : Py (option string) legacy_result :=
  cmd <- legacy_rewrite_cmd (ORC.enter_chroot kw) cmd ;;
  when (ORC.print_cmd kw)
       (w <- get_world ;;
        Info ("PROGRAM(" ++ caller_name w ++ ") -> RunCommand: "
              ++ Repr.repr cmd ++ " in dir " ++ Repr.str_opt (ORC.cwd kw))) ;;
  retry_loop cmd kw (range (ORC.num_retries kw + 1)).

(** A call of [OldRunCommand]: the local [output] starts as ['']. *)
Definition OldRunCommand (cmd : command) (kw : ORC.kwargs) (w : world)
  : world * outcome legacy_result :=
  let '(w', _, r) := OldRunCommand_body cmd kw (w, Some EmptyString) in (w', r).

(** ** Observations on a trace *)

Definition is_warning (e : event) : bool :=
  match e with EvWarning _ => true | _ => false end.

Definition is_popen (e : event) : bool :=
  match e with EvPopen _ => true | _ => false end.

Definition is_signal (e : event) : bool :=
  match e with EvSignal _ => true | _ => false end.

(** The number of warnings and of spawn attempts in a trace, and its
    writes to the SIGINT slot. *)
Definition warnings (t : list event) : nat := length (filter is_warning t).
Definition attempts (t : list event) : nat := length (filter is_popen t).
Definition signal_writes (t : list event) : list event := filter is_signal t.

(** The arguments of the [Popen] calls of a trace, in order. *)
Fixpoint popens (t : list event) : list popen_args :=
  match t with
  | [] => []
  | EvPopen a :: rest => a :: popens rest
  | _ :: rest => popens rest
  end.

Definition sighandler_eqb (a b : sighandler) : bool :=
  match a, b with
  | SIG_DFL, SIG_DFL => true
  | SIG_IGN, SIG_IGN => true
  | PyHandler i, PyHandler j => (i =? j)%nat
  | _, _ => false
  end.

(** How many times a trace writes the handler [h] to the SIGINT slot. *)
Definition installs (h : sighandler) (t : list event) : nat :=
  length (filter (fun e => match e with
                           | EvSignal h' => sighandler_eqb h h'
                           | _ => false
                           end) t).

(** The SIGINT disposition in force when the first child of a trace is
    spawned, for a trace that starts under [h0]. *)
Fixpoint sigint_at_spawn (h0 : sighandler) (t : list event) : option sighandler :=
  match t with
  | [] => None
  | EvPopen _ :: _ => Some h0
  | EvSignal h :: rest => sigint_at_spawn h rest
  | _ :: rest => sigint_at_spawn h0 rest
  end.

(** ** Children *)

(** What both functions feed a child on its stdin: [input] through a pipe
    when [input] is truthy, nothing (the parent's stdin) otherwise. *)
Definition child_stdin (input : option string) : option string :=
  match pipe_if (truthy input) with
  | PIPE => Some (or_empty input)
  | Inherit => None
  end.

(** What [communicate] hands back for a stream. *)
Definition captured (redirected : bool) (data : string) : option string :=
  match pipe_if redirected with
  | PIPE => Some data
  | Inherit => None
  end.

(** [isinstance(cmd, basestring)]. *)
Definition is_string (cmd : command) : bool :=
  match cmd with
  | CmdStr _ => true
  | CmdList _ => false
  end.

(** The child starts and, fed [fed], ends with a non-zero exit code. *)
Definition fails_nonzero (b : behaviour) (fed : option string) : bool :=
  match b with
  | SpawnRaises _ => false
  | Spawns run =>
      match run fed with
      | CommRaises _ => false
      | Terminates _ _ code => nonzero code
      end
  end.

(** A child that prints [out] and [err] and exits with [code]. *)
Definition child_exit (out err : string) (code : Z) : behaviour :=
  Spawns (fun _ => Terminates out err code).

(** A child that copies its stdin to its stdout, as [cat] does. *)
Definition child_cat : behaviour :=
  Spawns (fun fed => Terminates (or_empty fed) EmptyString 0).

(** A world with nothing done yet, whose [n]-th child behaves as [b n]. *)
Definition fresh_world (b : nat -> behaviour) : world :=
  {| sigint := SIG_DFL; children := b; spawned := 0; trace := [];
     _STDOUT_IS_TTY := false; caller_name := "build.py" |}.

(** [w'] is [w] after [n] more spawn attempts and [k] more warnings. *)
Definition stepped (w w' : world) (n k : nat) : Prop :=
  children w' = children w /\
  spawned w' = spawned w + n /\
  warnings (trace w') = warnings (trace w) + k /\
  attempts (trace w') = attempts (trace w) + n.

(** ** The wording of the specification, for comparison *)

(** The chroot-entry program, a separator, then the original command, in
    the form the original had. *)
Definition chroot_entry (cmd : command) : command :=
  match cmd with
  | CmdStr s => CmdStr ("./enter_chroot.sh -- " ++ s)
  | CmdList argv => CmdList ("./enter_chroot.sh" :: "--" :: argv)
  end.

(** The command the legacy loop runs when line 355 does not fail. *)
Definition legacy_cmd (kw : ORC.kwargs) (cmd : command) : command :=
  if ORC.enter_chroot kw then chroot_entry cmd else cmd.

(** The first of the caller's message, the captured stderr and the
    captured stdout that is present and not empty; nothing otherwise. *)
Definition preferred_detail (error_message stderr stdout : option string) : string :=
  match error_message with
  | Some (String c m) => String c m
  | _ =>
      match stderr with
      | Some (String c e) => String c e
      | _ =>
          match stdout with
          | Some (String c o) => String c o
          | _ => EmptyString
          end
      end
  end.

(** ** Concrete calls *)

Definition tolerant : RC.kwargs :=
  {| RC.print_cmd := false; RC.error_ok := true; RC.error_message := None;
     RC.exit_code := true; RC.redirect_stdout := true;
     RC.redirect_stderr := true; RC.cwd := None; RC.input := None;
     RC.enter_chroot := false; RC.shell := false; RC.env := None;
     RC.ignore_sigint := false |}.

Definition guarded : RC.kwargs :=
  {| RC.print_cmd := false; RC.error_ok := false; RC.error_message := None;
     RC.exit_code := false; RC.redirect_stdout := false;
     RC.redirect_stderr := false; RC.cwd := None; RC.input := None;
     RC.enter_chroot := false; RC.shell := false; RC.env := None;
     RC.ignore_sigint := true |}.

Definition legacy (error_ok exit_code enter_chroot : bool) (num_retries : nat)
  : ORC.kwargs :=
  {| ORC.print_cmd := false; ORC.error_ok := error_ok;
     ORC.error_message := None; ORC.exit_code := exit_code;
     ORC.redirect_stdout := true; ORC.redirect_stderr := true;
     ORC.cwd := None; ORC.input := None; ORC.enter_chroot := enter_chroot;
     ORC.num_retries := num_retries |}.

(** Two children that fail, then children that succeed. *)
Definition flaky (n : nat) : behaviour :=
  if (n <? 2)%nat then child_exit EmptyString "boom" 1
  else child_exit "done" EmptyString 0.

(** A caller that passes [error_message=''] and captures both streams. *)
Definition blank_message : RC.kwargs :=
  {| RC.print_cmd := false; RC.error_ok := false;
     RC.error_message := Some EmptyString;
     RC.exit_code := false; RC.redirect_stdout := true;
     RC.redirect_stderr := true; RC.cwd := None; RC.input := None;
     RC.enter_chroot := false; RC.shell := false; RC.env := None;
     RC.ignore_sigint := false |}.

(** A caller that passes [input] and captures stdout. *)
Definition piping (input : option string) : RC.kwargs :=
  {| RC.print_cmd := false; RC.error_ok := false; RC.error_message := None;
     RC.exit_code := false; RC.redirect_stdout := true;
     RC.redirect_stderr := false; RC.cwd := None; RC.input := input;
     RC.enter_chroot := false; RC.shell := false; RC.env := None;
     RC.ignore_sigint := false |}.

(** A caller that asks for the chroot, through the shell. *)
Definition chrooted : RC.kwargs :=
  {| RC.print_cmd := false; RC.error_ok := false; RC.error_message := None;
     RC.exit_code := false; RC.redirect_stdout := false;
     RC.redirect_stderr := false; RC.cwd := None; RC.input := None;
     RC.enter_chroot := true; RC.shell := true; RC.env := None;
     RC.ignore_sigint := false |}.

(** A caller that passes an [error_message] and captures both streams. *)
Definition with_message : RC.kwargs :=
  {| RC.print_cmd := false; RC.error_ok := false;
     RC.error_message := Some "no match";
     RC.exit_code := false; RC.redirect_stdout := true;
     RC.redirect_stderr := true; RC.cwd := None; RC.input := None;
     RC.enter_chroot := false; RC.shell := false; RC.env := None;
     RC.ignore_sigint := false |}.

Definition hello : string := "hello" ++ NL.

(** ** [os.path], [str] and [re], as the path helpers use them *)

Module Posix.
Definition SLASH : ascii := ascii_of_nat 47.

(** [s.startswith('/')] and [s.endswith('/')]. *)
Definition starts_with_slash (s : string) : bool :=
  match s with
  | String c _ => Ascii.eqb c SLASH
  | EmptyString => false
  end.

Fixpoint ends_with_slash (s : string) : bool :=
  match s with
  | EmptyString => false
  | String c EmptyString => Ascii.eqb c SLASH
  | String _ rest => ends_with_slash rest
  end.

(** [posixpath.join(a, b)]: an absolute [b] replaces [a]; otherwise [b] is
    appended, after a slash unless [a] is empty or ends with one. *)
Definition join (a b : string) : string :=
  if starts_with_slash b then b
  else match a with
       | EmptyString => b
       | _ => if ends_with_slash a then a ++ b else a ++ "/" ++ b
       end.

Fixpoint has_slash (s : string) : bool :=
  match s with
  | EmptyString => false
  | String c rest => Ascii.eqb c SLASH || has_slash rest
  end.

(** [s == '/' * len(s)]. *)
Fixpoint all_slashes (s : string) : bool :=
  match s with
  | EmptyString => true
  | String c rest => Ascii.eqb c SLASH && all_slashes rest
  end.

(** [p[:p.rfind('/') + 1]]: [p] up to and including its last slash. *)
Fixpoint upto_last_slash (p : string) : string :=
  match p with
  | EmptyString => EmptyString
  | String c rest =>
      if has_slash p then String c (upto_last_slash rest) else EmptyString
  end.

(** [s.rstrip('/')] and [s.lstrip('/')]. *)
Fixpoint rstrip (s : string) : string :=
  match s with
  | EmptyString => EmptyString
  | String c rest =>
      match rstrip rest with
      | EmptyString => if Ascii.eqb c SLASH then EmptyString
                       else String c EmptyString
      | rest' => String c rest'
      end
  end.

Fixpoint lstrip (s : string) : string :=
  match s with
  | EmptyString => EmptyString
  | String c rest => if Ascii.eqb c SLASH then lstrip rest else s
  end.

(** [s.strip('/')]. *)
Definition strip (s : string) : string := rstrip (lstrip s).

(** [posixpath.dirname(p)]. *)
Definition dirname (p : string) : string :=
  let head := upto_last_slash p in
  match head with
  | EmptyString => head
  | _ => if all_slashes head then head else rstrip head
  end.

(** [path.split('/')]: the pieces between the slashes. *)
Fixpoint split_from (piece s : string) : list string :=
  match s with
  | EmptyString => [piece]
  | String c rest =>
      if Ascii.eqb c SLASH then piece :: split_from EmptyString rest
      else split_from (piece ++ String c EmptyString) rest
  end.

Definition split (s : string) : list string := split_from EmptyString s.

(** [sep.join(l)]. *)
Fixpoint join_with (sep : string) (l : list string) : string :=
  match l with
  | [] => EmptyString
  | x :: rest =>
      match rest with
      | [] => x
      | _ :: _ => x ++ sep ++ join_with sep rest
      end
  end.

(** ['/' * n]. *)
Fixpoint slashes (n : nat) : string :=
  match n with
  | O => EmptyString
  | S k => String SLASH (slashes k)
  end.

(** The [initial_slashes] of [posixpath.normpath]: one or two slashes in
    front are kept, three or more count as one. *)
Definition initial_slashes (path : string) : nat :=
  if starts_with_slash path
  then if String.prefix "//" path && negb (String.prefix "///" path)
       then 2 else 1
  else 0.

Definition is_empty (l : list string) : bool :=
  match l with
  | [] => true
  | _ :: _ => false
  end.

(** The [for comp in comps] loop of [posixpath.normpath]. *)
Fixpoint norm_comps (initial : nat) (comps new_comps : list string)
  : list string :=
  match comps with
  | [] => new_comps
  | comp :: rest =>
      if String.eqb comp EmptyString || String.eqb comp "."
      then norm_comps initial rest new_comps
      else if negb (String.eqb comp "..")
              || ((initial =? 0)%nat && is_empty new_comps)
              || (negb (is_empty new_comps)
                  && String.eqb (last new_comps EmptyString) "..")
      then norm_comps initial rest (new_comps ++ [comp])
      else if negb (is_empty new_comps)
      then norm_comps initial rest (removelast new_comps)
      else norm_comps initial rest new_comps
  end.

(** [posixpath.normpath(path)]. *)
Definition normpath (path : string) : string :=
  match path with
  | EmptyString => "."
  | String _ _ =>
      let initial := initial_slashes path in
      let comps := norm_comps initial (split path) [] in
      match (slashes initial ++ join_with "/" comps)%string with
      | EmptyString => "."
      | normed => normed
      end
  end.

(** [posixpath.abspath(path)] in a process whose [os.getcwd()] is
    [cwd]. *)
Definition abspath (cwd path : string) : string :=
  normpath (if starts_with_slash path then path else join cwd path).
End Posix.

Module Str.
(** [s.replace(old, new)] for an [old] that is not empty: the occurrences
    of [old], found from left to right without overlap, become [new].
    [skip] counts the characters of an occurrence still to pass over. *)
Fixpoint replace_from (old new : string) (skip : nat) (s : string) : string :=
  match s with
  | EmptyString => EmptyString
  | String c rest =>
      match skip with
      | S k => replace_from old new k rest
      | O =>
          if String.prefix old s
          then new ++ replace_from old new (String.length old - 1) rest
          else String c (replace_from old new 0 rest)
      end
  end.

(** For an empty [old], [new] goes before every character and at the
    end. *)
Fixpoint interleave (new s : string) : string :=
  match s with
  | EmptyString => new
  | String c rest => new ++ String c (interleave new rest)
  end.

Definition replace (s old new : string) : string :=
  match old with
  | EmptyString => interleave new s
  | String _ _ => replace_from old new 0 s
  end.

(** [s[1:]]. *)
Definition from_1 (s : string) : string :=
  match s with
  | EmptyString => EmptyString
  | String _ rest => rest
  end.
End Str.

Module Re.
(** [re.split(pat, s)] for a pattern [pat] that is a plain text, not empty:
    [s] is cut at the occurrences of [pat], found from left to right
    without overlap.  [skip] counts the characters of an occurrence still
    to pass over, [piece] is the piece under construction. *)
Fixpoint split_from (pat : string) (skip : nat) (piece s : string)
  : list string :=
  match s with
  | EmptyString => [piece]
  | String c rest =>
      match skip with
      | S k => split_from pat k piece rest
      | O =>
          if String.prefix pat s
          then piece :: split_from pat (String.length pat - 1) EmptyString rest
          else split_from pat 0 (piece ++ String c EmptyString) rest
      end
  end.

Definition split (pat s : string) : list string :=
  split_from pat 0 EmptyString s.

(** The characters of the class [[0-9_.]]. *)
Definition is_version_char (c : ascii) : bool :=
  let n := nat_of_ascii c in
  ((48 <=? n)%nat && (n <=? 57)%nat) || (n =? 95)%nat || (n =? 46)%nat.

(** The longest run of such characters at the start of [s]. *)
Fixpoint version_run (s : string) : string :=
  match s with
  | EmptyString => EmptyString
  | String c rest =>
      if is_version_char c then String c (version_run rest) else EmptyString
  end.

(** [s] without its prefix [p], when it starts with [p]. *)
Fixpoint after_prefix (p s : string) : option string :=
  match p, s with
  | EmptyString, _ => Some s
  | String a p', String b s' =>
      if Ascii.eqb a b then after_prefix p' s' else None
  | String _ _, EmptyString => None
  end.

Definition VERSION_KEY : string := "CHROMEOS_VERSION_STRING=".

(** [re.search('CHROMEOS_VERSION_STRING=([0-9_.]+)', s)], as the group 1
    of the match: at the leftmost position where the key is followed by
    at least one character of the class, the longest run of them. *)
Fixpoint search_version (s : string) : option string :=
  let here :=
    match after_prefix VERSION_KEY s with
    | Some rest =>
        match version_run rest with
        | EmptyString => None
        | v => Some v
        end
    | None => None
    end in
  match here with
  | Some v => Some v
  | None =>
      match s with
      | EmptyString => None
      | String _ rest => search_version rest
      end
  end.
End Re.

(** ** The path and version helpers *)

(** [GetSrcRoot], for a process whose [os.path.abspath('.')] is [here]. *)
Definition GetSrcRoot {L : Type} (here : string) : Py L (option string) :=
  let match_str := "/src/scripts/" in
  let test_script_path := here in
  let path_list := Re.split match_str test_script_path in
  match path_list with
  | first :: _ =>
      let src_root := Posix.join first (Posix.strip match_str) in
      Info ("src_root = " ++ Repr.repr_str src_root) ;;
      ret (Some src_root)
  | [] =>
      Info ("No " ++ Repr.repr_str match_str ++ " found in "
            ++ Repr.repr_str test_script_path) ;;
      ret None
  end.

(** [GetChromeosVersion]. *)
Definition GetChromeosVersion {L : Type} (str_obj : option string)
  : Py L (option string) :=
  let not_found :=
    Info "CHROMEOS_VERSION_STRING NOT found" ;; ret None in
  match str_obj with
  | Some s =>
      match Re.search_version s with
      | Some group1 =>
          Info ("CHROMEOS_VERSION_STRING = " ++ group1) ;;
          ret (Some group1)
      | None => not_found
      end
  | None => not_found
  end.

Section OutputImageDir.
(** What [os.path.dirname(None)] raises, an [AttributeError]. *)
Variable attribute_error : exn.

(** [os.path.dirname(src_root)]. *)
Definition dirname_opt {L : Type} (p : option string) : Py L string :=
  match p with
  | Some s => ret (Posix.dirname s)
  | None => raise attribute_error
  end.

(** [GetOutputImageDir], for a process whose [os.path.abspath('.')] is
    [here]. *)
Definition GetOutputImageDir {L : Type} (here board cros_version : string)
  : Py L string :=
  src_root <- GetSrcRoot here ;;
  let rel_path := "build/images/" ++ board in
  let version_str := cros_version ++ "-" ++ "a1" in
  parent <- dirname_opt src_root ;;
  let output_dir := Posix.join (Posix.join parent rel_path) version_str in
  Info ("output_dir = " ++ output_dir) ;;
  ret output_dir.
End OutputImageDir.

(** Whether the text [pat] occurs in [s]. *)
Fixpoint occurs (pat s : string) : bool :=
  String.prefix pat s
  || match s with
     | EmptyString => false
     | String _ rest => occurs pat rest
     end.

(** The file system as the helpers see it: [os.listdir] (which raises
    for what it cannot list), [os.path.isfile] and [os.path.isdir]. *)
Record filesystem := {
  listdir : string -> exn + list string;
  isfile : string -> bool;
  isdir : string -> bool
}.

(** The loop of [FindRepoDir], from the absolute path that
    [os.path.abspath] returned: [None] when [fuel] passes are not enough,
    else what the function returns. *)
Fixpoint FindRepoDir_loop (fs : filesystem) (fuel : nat) (path : string)
  : option (option string) :=
  match fuel with
  | O => None
  | S fuel' =>
      if String.eqb path "/" then Some None
      else
        let repo_dir := Posix.join path ".repo" in
        if isdir fs repo_dir then Some (Some repo_dir)
        else FindRepoDir_loop fs fuel' (Posix.dirname path)
  end.

(** [FindRepoDir(path)] in a process whose [os.getcwd()] is [cwd]. *)
Definition FindRepoDir (fs : filesystem) (cwd : string) (fuel : nat)
  (path : option string) : option (option string) :=
  let path := match path with
              | None => cwd
              | Some p => p
              end in
  FindRepoDir_loop fs fuel (Posix.abspath cwd path).

Section Reinterpret.
(** What [os.path.join] raises for a [None] among its arguments, an
    [AttributeError], and [Exception(message)]. *)
Variable attribute_error : exn.
Variable exception : string -> exn.

(** [ReinterpretPathForChroot(path)], with [user] for
    [os.getenv('USER')]: [None] when [fuel] passes of the loop of
    [FindRepoDir] are not enough. *)
Definition ReinterpretPathForChroot (fs : filesystem) (cwd : string)
  (fuel : nat) (user : option string) (path : string)
  : option (outcome string) :=
  match FindRepoDir fs cwd fuel (Some path) with
  | None => None
  | Some None => Some (Raise attribute_error)
  | Some (Some repo_dir) =>
      let root_path := Posix.join repo_dir ".." in
      let path_abs_path := Posix.abspath cwd path in
      let root_abs_path := Posix.abspath cwd root_path in
      let relative_path :=
        Str.from_1 (Str.replace path_abs_path root_abs_path EmptyString) in
      if String.eqb relative_path path_abs_path
      then Some (Raise (exception
             "Error: path is outside your src tree, cannot reinterpret."))
      else
        match user with
        | None => Some (Raise attribute_error)
        | Some user =>
            let new_path :=
              Posix.join (Posix.join (Posix.join "/home" user) "trunk")
                relative_path in
            Some (Ret new_path)
        end
  end.
End Reinterpret.

(** [directories.pop()]: the last element and the others. *)
Fixpoint pop {A : Type} (l : list A) : option (A * list A) :=
  match l with
  | [] => None
  | x :: rest =>
      match pop rest with
      | None => Some (x, [])
      | Some (y, rest') => Some (y, x :: rest')
      end
  end.

(** The [for name in os.listdir(directory)] loop of [ListFiles]. *)
Fixpoint scan_names (fs : filesystem) (directory : string)
  (names : list string) (files_list directories : list string)
  : list string * list string :=
  match names with
  | [] => (files_list, directories)
  | name :: rest =>
      let fullpath := Posix.join directory name in
      if isfile fs fullpath
      then scan_names fs directory rest (files_list ++ [fullpath]) directories
      else if isdir fs fullpath
      then scan_names fs directory rest files_list (directories ++ [fullpath])
      else scan_names fs directory rest files_list directories
  end.

(** The [while directories:] loop of [ListFiles]: [None] when [fuel]
    passes are not enough. *)
Fixpoint ListFiles_loop (fs : filesystem) (fuel : nat)
  (directories files_list : list string) : option (outcome (list string)) :=
  match fuel with
  | O => None
  | S fuel' =>
      match pop directories with
      | None => Some (Ret files_list)
      | Some (directory, directories') =>
          match listdir fs directory with
          | inl e => Some (Raise e)
          | inr names =>
              let '(files_list', directories'') :=
                scan_names fs directory names files_list directories' in
              ListFiles_loop fs fuel' directories'' files_list'
          end
      end
  end.

Definition ListFiles (fs : filesystem) (fuel : nat) (base_dir : string)
  : option (outcome (list string)) :=
  ListFiles_loop fs fuel [base_dir] [].

(** The directories that [ListFiles] goes through from [base_dir]: the
    directory itself, and every entry of such a directory that is not a
    file and is a directory. *)
Inductive visited (fs : filesystem) (base_dir : string) : string -> Prop :=
| visited_base : visited fs base_dir base_dir
| visited_entry (directory : string) (names : list string) (name : string) :
    visited fs base_dir directory ->
    listdir fs directory = inr names ->
    In name names ->
    isfile fs (Posix.join directory name) = false ->
    isdir fs (Posix.join directory name) = true ->
    visited fs base_dir (Posix.join directory name).

(** A directory under which the directories form a finite tree: no
    chain of sub-directories goes down for ever (no cycle of links). *)
Inductive finite_below (fs : filesystem) : string -> Prop :=
| finite_below_intro (directory : string) :
    (forall names name,
        listdir fs directory = inr names ->
        In name names ->
        isfile fs (Posix.join directory name) = false ->
        isdir fs (Posix.join directory name) = true ->
        finite_below fs (Posix.join directory name)) ->
    finite_below fs directory.

(** A small tree: [/t] holds the file [a], the directory [d] and the
    dangling link [x]; [/t/d] holds the file [b]. *)
Definition small_tree : filesystem :=
  {| listdir := fun p =>
       if String.eqb p "/t" then inr ["a"; "d"; "x"]
       else if String.eqb p "/t/d" then inr ["b"]
       else inl (OSError "ENOTDIR");
     isfile := fun p => String.eqb p "/t/a" || String.eqb p "/t/d/b";
     isdir := fun p => String.eqb p "/t" || String.eqb p "/t/d" |}.

Section WalkDefs.
Variable fs : filesystem.
Variable base_dir : string.

(** What holds before every pass of the loop, with the directories
    already taken off the stack in [finished]. *)
Record walk_inv (directories files_list finished : list string) : Prop := {
  walk_visited :
    forall d, In d directories \/ In d finished -> visited fs base_dir d;
  walk_sound :
    forall p, In p files_list ->
      exists d names name,
        In d finished /\ listdir fs d = inr names /\ In name names /\
        p = Posix.join d name /\ isfile fs p = true;
  walk_files :
    forall d names name,
      In d finished -> listdir fs d = inr names -> In name names ->
      isfile fs (Posix.join d name) = true ->
      In (Posix.join d name) files_list;
  walk_dirs :
    forall d names name,
      In d finished -> listdir fs d = inr names -> In name names ->
      isfile fs (Posix.join d name) = false ->
      isdir fs (Posix.join d name) = true ->
      In (Posix.join d name) directories \/ In (Posix.join d name) finished;
  walk_base : In base_dir directories \/ In base_dir finished;
  walk_listed :
    forall d, In d finished -> exists names, listdir fs d = inr names
}.

(** The stack of directories empties when the tree under each of them
    is finite. *)
Definition ends (directories : list string) : Prop :=
  forall files_list,
    exists fuel r, ListFiles_loop fs fuel directories files_list = Some r.

End WalkDefs.

(** A component that [normpath] keeps: not empty, no slash in front. *)
Definition kept (c : string) : Prop :=
  c <> EmptyString /\ Posix.starts_with_slash c = false.

(** A checkout under [/home/u/trunk], and a file system without any
    [.repo]. *)
Definition repo_tree : filesystem :=
  {| listdir := fun _ => inr [];
     isfile := fun _ => false;
     isdir := fun p => String.eqb p "/home/u/trunk/.repo" |}.

Definition bare_tree : filesystem :=
  {| listdir := fun _ => inr [];
     isfile := fun _ => false;
     isdir := fun _ => false |}.

(** * Properties *)

Local Open Scope list_scope.

(** ** Traces *)

Lemma warnings_app (t u : list event) :
  warnings (t ++ u) = warnings t + warnings u.
Proof. unfold warnings. now rewrite filter_app, length_app. Qed.

Lemma attempts_app (t u : list event) :
  attempts (t ++ u) = attempts t + attempts u.
Proof. unfold attempts. now rewrite filter_app, length_app. Qed.

Lemma popens_app (t u : list event) : popens (t ++ u) = popens t ++ popens u.
Proof.
  induction t as [|e t IH]; [reflexivity|].
  destruct e; cbn; now rewrite IH.
Qed.

Lemma stepped_refl (w : world) : stepped w w 0 0.
Proof. unfold stepped. repeat split; lia. Qed.

Lemma stepped_trans (w1 w2 w3 : world) (n m j k : nat) :
  stepped w1 w2 n j -> stepped w2 w3 m k -> stepped w1 w3 (n + m) (j + k).
Proof.
  unfold stepped. intros (Hc & Hs & Hw & Ha) (Hc' & Hs' & Hw' & Ha').
  repeat split; [congruence | lia | lia | lia].
Qed.

#[local] Arguments Color.Color : simpl never.
#[local] Arguments warnings : simpl never.
#[local] Arguments attempts : simpl never.
#[local] Arguments signal_writes : simpl never.
#[local] Arguments or_empty : simpl never.
#[local] Arguments truthy : simpl never.
#[local] Arguments nonzero : simpl never.
#[local] Arguments rewrite_cmd : simpl never.
#[local] Arguments render : simpl never.
#[local] Arguments failure_message : simpl never.
#[local] Arguments legacy_failure_message : simpl never.
#[local] Arguments Repr.repr : simpl never.
#[local] Arguments Repr.str_opt : simpl never.

(** ** Tactics: running the monad *)

Ltac py_unfold :=
  unfold RunCommand, RunCommand_body, OldRunCommand, OldRunCommand_body,
    retry_loop, attempt, legacy_rewrite_cmd, Popen, communicate,
    signal_signal, Warning, Info, when, try_except, try_finally, bind, ret,
    raise, get_local, modify_local, get_world, modify_world,
    child_stdin, captured, pipe_if in *.

Ltac split_cases :=
  repeat (cbn;
    match goal with
    | |- context [match ?x with SpawnRaises _ => _ | Spawns _ => _ end] =>
        destruct x eqn:?
    | |- context [match ?x with CommRaises _ => _ | Terminates _ _ _ => _ end] =>
        destruct x eqn:?
    | |- context [is_Exception ?e] => is_var e; destruct e
    | |- context [is_RunCommandException ?e] => is_var e; destruct e
    | |- context [nonzero ?c] => destruct (nonzero c) eqn:?
    | |- context [if ?b then _ else _] => is_var b; destruct b
    | |- context [if negb ?b then _ else _] => is_var b; destruct b
    | |- context [if ?b then _ else _] => destruct b eqn:?
    end).

Ltac count_events :=
  cbn; rewrite ?warnings_app, ?attempts_app; unfold warnings, attempts; cbn;
  first [reflexivity | lia].

Ltac stepped_tac := unfold stepped; repeat split; count_events.

Lemma nonzero_true (code : Z) : code <> 0%Z -> nonzero code = true.
Proof. unfold nonzero. intros H. now apply Z.eqb_neq in H as ->. Qed.

(** ** [RunCommand] *)

(** What a call of [RunCommand] does when the child runs to its end: the
    result it builds, whether it raises, and what it adds to the trace. *)
Lemma RunCommand_terminates (cmd : command) (kw : RC.kwargs) (w : world)
  (run : option string -> comm_outcome) (out err : string) (code : Z) :
  children w (spawned w) = Spawns run ->
  run (child_stdin (RC.input kw)) = Terminates out err code ->
  exists w',
    RunCommand cmd kw w =
      (w',
       if negb (RC.error_ok kw) && nonzero code
       then Raise (RunCommandError
                     (failure_message
                        (render (rewrite_cmd (RC.enter_chroot kw) cmd))
                        (RC.error_message kw)
                        (captured (RC.redirect_stderr kw) err)
                        (captured (RC.redirect_stdout kw) out)))
       else Ret {| CommandResult.cmd :=
                     Some (rewrite_cmd (RC.enter_chroot kw) cmd);
                   CommandResult.error := captured (RC.redirect_stderr kw) err;
                   CommandResult.output := captured (RC.redirect_stdout kw) out;
                   CommandResult.returncode :=
                     if RC.exit_code kw then Some code else None |}) /\
    stepped w w' 1 0.
Proof.
  intros Hc Hr.
  destruct kw as [pc eo em ec ro re cw inp ch sh en ig]; cbn in *.
  py_unfold. cbn. revert Hr.
  destruct (truthy inp), pc, ig, ec, eo, ro, re; cbn; intros Hr;
    rewrite Hc; cbn; rewrite Hr; cbn;
    destruct (nonzero code); cbn;
    (eexists; split; [reflexivity|]);
    stepped_tac.
Qed.

(** ** The legacy retry loop *)

Section Legacy.
Variables (cmd : command) (kw : ORC.kwargs).

Let N := ORC.num_retries kw.
Let fed := child_stdin (ORC.input kw).
Let body :=
  attempt cmd kw (pipe_if (truthy (ORC.input kw)))
    (pipe_if (ORC.redirect_stdout kw)) (pipe_if (ORC.redirect_stderr kw)).

(** One pass whose child ends with a non-zero exit code. *)
Lemma attempt_nonzero (rc : nat) (w : world) (l : option string)
  (run : option string -> comm_outcome) (out err : string) (code : Z) :
  children w (spawned w) = Spawns run ->
  run fed = Terminates out err code ->
  code <> 0%Z ->
  exists w',
    body rc (w, l) =
      (w', captured (ORC.redirect_stdout kw) out,
       if ORC.exit_code kw && (rc =? N)%nat
       then Ret (Return (ReturnCode code))
       else if negb (ORC.error_ok kw) && (rc =? N)%nat
       then Raise (RunCommandException
                     (legacy_failure_message cmd (ORC.error_message kw)
                        (captured (ORC.redirect_stderr kw) err)
                        (captured (ORC.redirect_stdout kw) out)))
       else Ret Next) /\
    stepped w w' 1
      (if (ORC.exit_code kw || negb (ORC.error_ok kw)) && (rc =? N)%nat
       then 0 else 1).
Proof.
  intros Hc Hr Hz. apply Z.eqb_neq in Hz.
  subst N fed body. destruct kw as [pc eo em ec ro re cw inp ch nr].
  py_unfold. cbn. revert Hr. cbn.
  destruct (truthy inp), pc, ec, eo, ro, re, (rc =? nr)%nat; cbn; intros Hr;
    rewrite Hc; cbn; rewrite Hr; cbn; rewrite ?Hz; cbn;
    (eexists; split; [reflexivity|]); stepped_tac.
Qed.

(** One pass whose child exits with code zero. *)
Lemma attempt_zero (rc : nat) (w : world) (l : option string)
  (run : option string -> comm_outcome) (out err : string) :
  children w (spawned w) = Spawns run ->
  run fed = Terminates out err 0 ->
  exists w',
    body rc (w, l) =
      (w', captured (ORC.redirect_stdout kw) out,
       if ORC.exit_code kw && (rc =? N)%nat
       then Ret (Return (ReturnCode 0))
       else Ret Break) /\
    stepped w w' 1 0.
Proof.
  intros Hc Hr.
  subst N fed body. destruct kw as [pc eo em ec ro re cw inp ch nr].
  py_unfold. cbn. revert Hr. cbn.
  destruct (truthy inp), pc, ec, eo, ro, re, (rc =? nr)%nat; cbn; intros Hr;
    rewrite Hc; cbn; rewrite Hr; cbn;
    (eexists; split; [reflexivity|]); stepped_tac.
Qed.

(** One pass whose child cannot be created: the exception leaves the
    pass as it is, and nothing is written. *)
Lemma attempt_spawn_error (rc : nat) (w : world) (l : option string) (e : exn) :
  children w (spawned w) = SpawnRaises e ->
  is_RunCommandException e = false ->
  exists w', body rc (w, l) = (w', l, Raise e) /\ stepped w w' 1 0.
Proof.
  intros Hc He.
  subst N fed body. destruct kw as [pc eo em ec ro re cw inp ch nr].
  py_unfold. cbn. rewrite Hc. cbn. rewrite He.
  eexists; split; [reflexivity|]. stepped_tac.
Qed.

(** Every pass calls [Popen] once, with the same arguments. *)
Lemma attempt_popens (rc : nat) (w : world) (l : option string) :
  popens (trace (fst (fst (body rc (w, l))))) =
  popens (trace w) ++ [legacy_popen_args cmd kw].
Proof.
  subst N fed body. unfold legacy_popen_args.
  destruct kw as [pc eo em ec ro re cw inp ch nr].
  py_unfold. split_cases.
  all: rewrite ?popens_app; cbn; rewrite <- ?app_assoc; try reflexivity.
Qed.

(** The world moves on by one child per pass. *)
Lemma attempt_spawned (rc : nat) (w : world) (l : option string) :
  spawned (fst (fst (body rc (w, l)))) = S (spawned w) /\
  children (fst (fst (body rc (w, l)))) = children w.
Proof.
  subst N fed body.
  destruct kw as [pc eo em ec ro re cw inp ch nr].
  py_unfold. split_cases. all: split; reflexivity.
Qed.

Lemma retry_loop_cons (i : nat) (rest : list nat) (s : world * option string) :
  retry_loop cmd kw (i :: rest) s =
  match body i s with
  | (s', Ret Next) => retry_loop cmd kw rest s'
  | (s', Ret Break) => (s', Ret (Output (snd s')))
  | (s', Ret (Return a)) => (s', Ret a)
  | (s', Raise e) => (s', Raise e)
  end.
Proof.
  subst body. unfold retry_loop. cbn [for_in]. unfold bind at 1.
  destruct (attempt _ _ _ _ _ i s) as [s' [[| |a]|e]]; reflexivity.
Qed.

Lemma fails_nonzero_inv (b : behaviour) (f : option string) :
  fails_nonzero b f = true ->
  exists run out err code,
    b = Spawns run /\ run f = Terminates out err code /\ code <> 0%Z.
Proof.
  unfold fails_nonzero. destruct b as [e|run]; [discriminate|].
  destruct (run f) as [e|out err code] eqn:Hr; [discriminate|].
  unfold nonzero. intros H. exists run, out, err, code.
  repeat split; trivial. intros ->. discriminate.
Qed.

(** Passes before the last whose children end with a non-zero exit code:
    each is warned about, and the loop goes on. *)
Lemma retry_loop_failing_prefix (m : nat) :
  forall (k : nat) (w : world) (l : option string) (rest : list nat),
    k + m <= N ->
    (forall i, i < m ->
       fails_nonzero (children w (spawned w + i)) fed = true) ->
    exists w' l',
      retry_loop cmd kw (seq k m ++ rest) (w, l) =
      retry_loop cmd kw rest (w', l') /\
      stepped w w' m m.
Proof.
  induction m as [|m IH]; intros k w l rest Hk Hf.
  - exists w, l. split; [reflexivity | apply stepped_refl].
  - destruct (fails_nonzero_inv _ _ (Hf 0 ltac:(lia)))
      as (run & out & err & code & Hc & Hr & Hz).
    rewrite Nat.add_0_r in Hc.
    destruct (attempt_nonzero k w l run out err code Hc Hr Hz)
      as (w1 & Hb & Hs).
    assert (Hne : (k =? N)%nat = false) by (apply Nat.eqb_neq; lia).
    rewrite Hne in Hb, Hs. rewrite ?andb_false_r in Hb.
    rewrite ?andb_false_r in Hs. cbn in Hb, Hs.
    destruct (IH (S k) w1 (captured (ORC.redirect_stdout kw) out) rest)
      as (w2 & l2 & Hl & Hs2); [lia | |].
    + intros i Hi. destruct Hs as (Hch & Hsp & _). rewrite Hch, Hsp.
      replace (spawned w + 1 + i) with (spawned w + S i) by lia.
      apply Hf. lia.
    + exists w2, l2. split.
      * cbn [seq app]. rewrite retry_loop_cons. fold body. rewrite Hb. exact Hl.
      * exact (stepped_trans _ _ _ _ _ _ _ Hs Hs2).
Qed.

(** The start of a call: the rewrite of line 355 and the announcement. *)
Lemma OldRunCommand_start (w : world) :
  ORC.enter_chroot kw && is_string cmd = false ->
  exists w0,
    OldRunCommand cmd kw w =
      (let '(w', _, r) :=
         retry_loop (legacy_cmd kw cmd) kw
           (range (N + 1)) (w0, Some EmptyString) in (w', r)) /\
    stepped w w0 0 0 /\
    popens (trace w0) = popens (trace w).
Proof.
  intros H. subst N. unfold OldRunCommand, OldRunCommand_body, legacy_cmd.
  unfold legacy_rewrite_cmd, when, Info, bind, ret, raise, get_world,
    modify_world.
  destruct (ORC.enter_chroot kw), cmd as [s|argv]; try discriminate H;
    destruct (ORC.print_cmd kw); cbn;
    (eexists; split; [reflexivity|]); (split; [stepped_tac|]);
    cbn; rewrite ?popens_app; cbn; rewrite ?app_nil_r; reflexivity.
Qed.
End Legacy.

(** ** Whole calls of [OldRunCommand] *)

Lemma retry_loop_nil (cmd : command) (kw : ORC.kwargs)
  (s : world * option string) :
  retry_loop cmd kw [] s = (s, Ret (Output (snd s))).
Proof. reflexivity. Qed.

(** A call whose first [k] children end with a non-zero exit code, [k]
    being at most [num_retries]: it reaches pass [k] with [k] warnings. *)
Lemma OldRunCommand_after_failures (cmd : command) (kw : ORC.kwargs)
  (w : world) (k : nat) :
  ORC.enter_chroot kw && is_string cmd = false ->
  k <= ORC.num_retries kw ->
  (forall i, i < k ->
     fails_nonzero (children w (spawned w + i))
       (child_stdin (ORC.input kw)) = true) ->
  exists w1 l1,
    OldRunCommand cmd kw w =
      (let '(w', _, r) :=
         retry_loop (legacy_cmd kw cmd) kw
           (k :: seq (S k) (ORC.num_retries kw - k)) (w1, l1) in (w', r)) /\
    stepped w w1 k k.
Proof.
  intros Hok Hk Hf.
  destruct (OldRunCommand_start cmd kw w Hok) as (w0 & Hstart & Hs0 & _).
  rewrite Hstart. unfold range.
  replace (ORC.num_retries kw + 1) with (k + S (ORC.num_retries kw - k)) by lia.
  rewrite seq_app. cbn [seq Nat.add].
  destruct (retry_loop_failing_prefix (legacy_cmd kw cmd) kw k 0 w0
              (Some EmptyString)
              (k :: seq (S k) (ORC.num_retries kw - k)))
    as (w1 & l1 & Hl & Hs1); [lia | |].
  - intros i Hi. destruct Hs0 as (Hch & Hsp & _). rewrite Hch, Hsp.
    rewrite Nat.add_0_r. now apply Hf.
  - exists w1, l1. split; [now rewrite Hl|].
    exact (stepped_trans _ _ _ _ _ _ _ Hs0 Hs1).
Qed.

(** Every child of the call ends with a non-zero exit code. *)
Lemma OldRunCommand_all_fail (cmd : command) (kw : ORC.kwargs) (w : world)
  (run : option string -> comm_outcome) (out err : string) (code : Z) :
  ORC.enter_chroot kw && is_string cmd = false ->
  (forall i, i < ORC.num_retries kw ->
     fails_nonzero (children w (spawned w + i))
       (child_stdin (ORC.input kw)) = true) ->
  children w (spawned w + ORC.num_retries kw) = Spawns run ->
  run (child_stdin (ORC.input kw)) = Terminates out err code ->
  code <> 0%Z ->
  exists w',
    OldRunCommand cmd kw w =
      (w',
       if ORC.exit_code kw then Ret (ReturnCode code)
       else if negb (ORC.error_ok kw)
       then Raise (RunCommandException
                     (legacy_failure_message (legacy_cmd kw cmd)
                        (ORC.error_message kw)
                        (captured (ORC.redirect_stderr kw) err)
                        (captured (ORC.redirect_stdout kw) out)))
       else Ret (Output (captured (ORC.redirect_stdout kw) out))) /\
    stepped w w' (ORC.num_retries kw + 1)
      (ORC.num_retries kw
       + if ORC.exit_code kw || negb (ORC.error_ok kw) then 0 else 1).
Proof.
  intros Hok Hf Hc Hr Hz.
  destruct (OldRunCommand_after_failures cmd kw w (ORC.num_retries kw) Hok
              (le_n _) Hf) as (w1 & l1 & Hcall & Hs1).
  rewrite Hcall, Nat.sub_diag. cbn [seq].
  assert (Hc1 : children w1 (spawned w1) = Spawns run).
  { destruct Hs1 as (Hch & Hsp & _). now rewrite Hch, Hsp. }
  destruct (attempt_nonzero (legacy_cmd kw cmd) kw (ORC.num_retries kw)
              w1 l1 run out err code Hc1 Hr Hz) as (w2 & Hb & Hs2).
  rewrite Nat.eqb_refl, !andb_true_r in Hb.
  rewrite Nat.eqb_refl, andb_true_r in Hs2.
  rewrite retry_loop_cons, Hb. exists w2.
  split.
  - destruct (ORC.exit_code kw), (ORC.error_ok kw); reflexivity.
  - exact (stepped_trans _ _ _ _ _ _ _ Hs1 Hs2).
Qed.

(** The child of pass [k] cannot be created. *)
Lemma OldRunCommand_spawn_error (cmd : command) (kw : ORC.kwargs) (w : world)
  (k : nat) (e : exn) :
  ORC.enter_chroot kw && is_string cmd = false ->
  k <= ORC.num_retries kw ->
  (forall i, i < k ->
     fails_nonzero (children w (spawned w + i))
       (child_stdin (ORC.input kw)) = true) ->
  children w (spawned w + k) = SpawnRaises e ->
  is_RunCommandException e = false ->
  exists w', OldRunCommand cmd kw w = (w', Raise e) /\ stepped w w' (k + 1) k.
Proof.
  intros Hok Hk Hf Hc He.
  destruct (OldRunCommand_after_failures cmd kw w k Hok Hk Hf)
    as (w1 & l1 & Hcall & Hs1).
  rewrite Hcall.
  assert (Hc1 : children w1 (spawned w1) = SpawnRaises e).
  { destruct Hs1 as (Hch & Hsp & _). now rewrite Hch, Hsp. }
  destruct (attempt_spawn_error (legacy_cmd kw cmd) kw k w1 l1 e Hc1 He)
    as (w2 & Hb & Hs2).
  rewrite retry_loop_cons, Hb. exists w2. split; [reflexivity|].
  replace k with (k + 0) at 2 by lia.
  exact (stepped_trans _ _ _ _ _ _ _ Hs1 Hs2).
Qed.

(** Whatever the children do, every [Popen] call of the loop has the same
    arguments, and a loop over at least one value makes at least one. *)
Lemma retry_loop_popens (cmd : command) (kw : ORC.kwargs) (items : list nat) :
  forall (w : world) (l : option string),
  exists n,
    (items <> [] -> 1 <= n) /\
    popens (trace (fst (fst (retry_loop cmd kw items (w, l))))) =
    popens (trace w) ++ repeat (legacy_popen_args cmd kw) n.
Proof.
  induction items as [|i rest IH]; intros w l.
  - exists 0. split; [congruence|]. cbn. now rewrite app_nil_r.
  - rewrite retry_loop_cons.
    pose proof (attempt_popens cmd kw i w l) as Hp.
    destruct (attempt cmd kw _ _ _ i (w, l)) as [[w1 l1] [[| |a]|e]];
      cbn [fst snd] in Hp |- *.
    + destruct (IH w1 l1) as (n & _ & Hn). exists (S n). split; [lia|].
      rewrite Hn, Hp, <- app_assoc. reflexivity.
    + exists 1. split; [lia|]. exact Hp.
    + exists 1. split; [lia|]. exact Hp.
    + exists 1. split; [lia|]. exact Hp.
Qed.

Lemma OldRunCommand_popens (cmd : command) (kw : ORC.kwargs) (w : world) :
  ORC.enter_chroot kw && is_string cmd = false ->
  exists n,
    1 <= n /\
    popens (trace (fst (OldRunCommand cmd kw w))) =
    popens (trace w) ++ repeat (legacy_popen_args (legacy_cmd kw cmd) kw) n.
Proof.
  intros Hok.
  destruct (OldRunCommand_start cmd kw w Hok) as (w0 & Hstart & _ & Hp0).
  rewrite Hstart.
  destruct (retry_loop_popens (legacy_cmd kw cmd) kw
              (range (ORC.num_retries kw + 1)) w0 (Some EmptyString))
    as (n & Hn & Hp).
  exists n. split.
  - apply Hn. unfold range. rewrite Nat.add_1_r. discriminate.
  - destruct (retry_loop _ kw _ (w0, Some EmptyString)) as [[w1 l1] r].
    cbn [fst] in Hp |- *. now rewrite Hp, Hp0.
Qed.

(** ** Whole calls of [RunCommand] *)

Lemma rewrite_cmd_chroot (cmd : command) : rewrite_cmd true cmd = chroot_entry cmd.
Proof. destruct cmd; reflexivity. Qed.

(** Whatever the child does, [RunCommand] calls [Popen] once, with the
    rewritten command, and a result it returns echoes that command. *)
Lemma RunCommand_popens (cmd : command) (kw : RC.kwargs) (w : world) :
  popens (trace (fst (RunCommand cmd kw w))) =
  popens (trace w) ++
    [{| pa_cmd := rewrite_cmd (RC.enter_chroot kw) cmd;
        pa_cwd := RC.cwd kw;
        pa_stdin := pipe_if (truthy (RC.input kw));
        pa_stdout := pipe_if (RC.redirect_stdout kw);
        pa_stderr := pipe_if (RC.redirect_stderr kw);
        pa_shell := RC.shell kw;
        pa_env := RC.env kw |}].
Proof.
  destruct kw as [pc eo em ec ro re cw inp ch sh en ig].
  py_unfold. split_cases.
  all: rewrite ?popens_app; cbn; rewrite <- ?app_assoc; reflexivity.
Qed.

Lemma RunCommand_echo (cmd : command) (kw : RC.kwargs) (w : world)
  (r : CommandResult.t) :
  snd (RunCommand cmd kw w) = Ret r ->
  CommandResult.cmd r = Some (rewrite_cmd (RC.enter_chroot kw) cmd).
Proof.
  destruct kw as [pc eo em ec ro re cw inp ch sh en ig].
  py_unfold. split_cases.
  all: intros H; try discriminate H; injection H as <-; reflexivity.
Qed.

Lemma preferred_detail_or (a b c : option string) :
  or_empty (py_or (py_or (py_or a b) c) (Some EmptyString)) =
  preferred_detail a b c.
Proof.
  destruct a as [[|? ?]|], b as [[|? ?]|], c as [[|? ?]|]; reflexivity.
Qed.

(** * The claims *)

(** ** C1: a non-zero exit code that the caller tolerates *)

(** C1, as amended.  With [error_ok] set and a child that ends with a
    non-zero exit code, both functions return normally.  [RunCommand]
    returns the [CommandResult] with the captures and, when asked, the
    exit code, and emits no warning.  [OldRunCommand], all of whose
    children end so, emits one warning per pass and returns the output of
    the last child, except that in exit-code mode the last pass returns
    the exit code without a warning. *)
Theorem C1_tolerated_nonzero_exit :
  (forall (cmd : command) (kw : RC.kwargs) (w : world)
          (run : option string -> comm_outcome) (out err : string) (code : Z),
      RC.error_ok kw = true ->
      children w (spawned w) = Spawns run ->
      run (child_stdin (RC.input kw)) = Terminates out err code ->
      code <> 0%Z ->
      exists w',
        RunCommand cmd kw w =
          (w', Ret {| CommandResult.cmd :=
                        Some (rewrite_cmd (RC.enter_chroot kw) cmd);
                      CommandResult.error :=
                        captured (RC.redirect_stderr kw) err;
                      CommandResult.output :=
                        captured (RC.redirect_stdout kw) out;
                      CommandResult.returncode :=
                        if RC.exit_code kw then Some code else None |}) /\
        warnings (trace w') = warnings (trace w)) /\
  (forall (cmd : command) (kw : ORC.kwargs) (w : world)
          (run : option string -> comm_outcome) (out err : string) (code : Z),
      ORC.error_ok kw = true ->
      ORC.enter_chroot kw && is_string cmd = false ->
      (forall i, i < ORC.num_retries kw ->
         fails_nonzero (children w (spawned w + i))
           (child_stdin (ORC.input kw)) = true) ->
      children w (spawned w + ORC.num_retries kw) = Spawns run ->
      run (child_stdin (ORC.input kw)) = Terminates out err code ->
      code <> 0%Z ->
      exists w',
        OldRunCommand cmd kw w =
          (w', Ret (if ORC.exit_code kw then ReturnCode code
                    else Output (captured (ORC.redirect_stdout kw) out))) /\
        warnings (trace w') =
          warnings (trace w) + ORC.num_retries kw
          + (if ORC.exit_code kw then 0 else 1)).
Proof.
  split.
  - intros cmd kw w run out err code Hok Hc Hr Hz.
    destruct (RunCommand_terminates cmd kw w run out err code Hc Hr)
      as (w' & Hcall & _ & _ & Hw & _).
    exists w'. rewrite Hcall, Hok. cbn. split; [reflexivity | lia].
  - intros cmd kw w run out err code Hok Hch Hf Hc Hr Hz.
    destruct (OldRunCommand_all_fail cmd kw w run out err code Hch Hf Hc Hr Hz)
      as (w' & Hcall & _ & _ & Hw & _).
    exists w'. rewrite Hcall, Hw, Hok. cbn.
    destruct (ORC.exit_code kw); cbn; split; try reflexivity; lia.
Qed.

Lemma C1_tolerated_nonzero_exit_witness :
  (exists w',
     RunCommand (CmdList ["false"]) tolerant
       (fresh_world (fun _ => child_exit "some" "boom" 1)) =
       (w', Ret {| CommandResult.cmd := Some (CmdList ["false"]);
                   CommandResult.error := Some "boom";
                   CommandResult.output := Some "some";
                   CommandResult.returncode := Some 1%Z |}) /\
     warnings (trace w') = 0) /\
  (exists w',
     OldRunCommand (CmdList ["false"]) (legacy true false false 1)
       (fresh_world (fun _ => child_exit "some" "boom" 1)) =
       (w', Ret (Output (Some "some"))) /\
     warnings (trace w') = 2).
Proof.
  split.
  - exact (proj1 C1_tolerated_nonzero_exit (CmdList ["false"]) tolerant
             (fresh_world (fun _ => child_exit "some" "boom" 1))
             (fun _ => Terminates "some" "boom" 1) "some" "boom" 1%Z
             eq_refl eq_refl eq_refl ltac:(discriminate)).
  - exact (proj2 C1_tolerated_nonzero_exit (CmdList ["false"])
             (legacy true false false 1)
             (fresh_world (fun _ => child_exit "some" "boom" 1))
             (fun _ => Terminates "some" "boom" 1) "some" "boom" 1%Z
             eq_refl eq_refl (fun _ _ => eq_refl) eq_refl eq_refl
             ltac:(discriminate)).
Defined.

(** C1 as stated fails for [RunCommand]: the call below tolerates exit
    code 1 and returns its result, and it emits no warning, not one. *)
Lemma C1_counterexample :
  snd (RunCommand (CmdList ["false"]) tolerant
         (fresh_world (fun _ => child_exit "some" "boom" 1))) =
    Ret {| CommandResult.cmd := Some (CmdList ["false"]);
           CommandResult.error := Some "boom";
           CommandResult.output := Some "some";
           CommandResult.returncode := Some 1%Z |} /\
  warnings (trace (fst (RunCommand (CmdList ["false"]) tolerant
                          (fresh_world (fun _ => child_exit "some" "boom" 1)))))
    <> 1.
Proof. split; [reflexivity | discriminate]. Qed.

(** ** C2: which failures the legacy loop lets through *)

(** C2, as amended.  Let the first [k] children of a legacy call end with
    a non-zero exit code, [k] being at most [num_retries]: each of these
    failures is downgraded to a warning and the loop goes on, whatever
    [error_ok] is.  If the next child cannot be created, the spawn error
    is raised to the caller from that pass, final or not, whatever
    [error_ok] is, with no warning for it.  If instead [k] is
    [num_retries] and the last child also ends with a non-zero exit code
    (outside exit-code mode), [error_ok] decides between raising the
    failure and a warning plus the output of that last pass. *)
Theorem C2_legacy_failure_propagation (cmd : command) (kw : ORC.kwargs)
  (w : world) (k : nat) :
  ORC.enter_chroot kw && is_string cmd = false ->
  k <= ORC.num_retries kw ->
  (forall i, i < k ->
     fails_nonzero (children w (spawned w + i))
       (child_stdin (ORC.input kw)) = true) ->
  (forall e,
     children w (spawned w + k) = SpawnRaises e ->
     is_RunCommandException e = false ->
     exists w',
       OldRunCommand cmd kw w = (w', Raise e) /\
       warnings (trace w') = warnings (trace w) + k /\
       attempts (trace w') = attempts (trace w) + (k + 1)) /\
  (forall run out err code,
     k = ORC.num_retries kw ->
     ORC.exit_code kw = false ->
     children w (spawned w + k) = Spawns run ->
     run (child_stdin (ORC.input kw)) = Terminates out err code ->
     code <> 0%Z ->
     exists w',
       OldRunCommand cmd kw w =
         (w',
          if ORC.error_ok kw
          then Ret (Output (captured (ORC.redirect_stdout kw) out))
          else Raise (RunCommandException
                        (legacy_failure_message (legacy_cmd kw cmd)
                           (ORC.error_message kw)
                           (captured (ORC.redirect_stderr kw) err)
                           (captured (ORC.redirect_stdout kw) out)))) /\
       warnings (trace w') =
         warnings (trace w) + k + (if ORC.error_ok kw then 1 else 0) /\
       attempts (trace w') = attempts (trace w) + (k + 1)).
Proof.
  intros Hok Hk Hf. split.
  - intros e Hc He.
    destruct (OldRunCommand_spawn_error cmd kw w k e Hok Hk Hf Hc He)
      as (w' & Hcall & _ & _ & Hw & Ha).
    exists w'. repeat split; assumption.
  - intros run out err code -> Hec Hc Hr Hz.
    destruct (OldRunCommand_all_fail cmd kw w run out err code Hok Hf Hc Hr Hz)
      as (w' & Hcall & _ & _ & Hw & Ha).
    exists w'. rewrite Hcall, Hw, Ha, Hec. cbn.
    destruct (ORC.error_ok kw); cbn; repeat split; lia.
Qed.

Lemma C2_legacy_failure_propagation_witness :
  (exists w',
     OldRunCommand (CmdList ["make"]) (legacy true false false 3)
       (fresh_world (fun n => if (n <? 2)%nat
                              then child_exit EmptyString "boom" 1
                              else SpawnRaises (OSError "ENOENT"))) =
       (w', Raise (OSError "ENOENT")) /\
     warnings (trace w') = 2 /\ attempts (trace w') = 3) /\
  (exists w',
     OldRunCommand (CmdList ["make"]) (legacy true false false 2)
       (fresh_world (fun _ => child_exit "some" "boom" 1)) =
       (w', Ret (Output (Some "some"))) /\
     warnings (trace w') = 3 /\ attempts (trace w') = 3).
Proof.
  split.
  - refine (proj1 (C2_legacy_failure_propagation (CmdList ["make"])
                     (legacy true false false 3)
                     (fresh_world (fun n => if (n <? 2)%nat
                                            then child_exit EmptyString "boom" 1
                                            else SpawnRaises (OSError "ENOENT")))
                     2 eq_refl _ _)
              (OSError "ENOENT") eq_refl eq_refl).
    + cbn. lia.
    + intros [|[|i]] Hi; [reflexivity | reflexivity | lia].
  - refine (proj2 (C2_legacy_failure_propagation (CmdList ["make"])
                     (legacy true false false 2)
                     (fresh_world (fun _ => child_exit "some" "boom" 1))
                     2 eq_refl _ _)
              (fun _ => Terminates "some" "boom" 1) "some" "boom" 1%Z
              eq_refl eq_refl eq_refl eq_refl _).
    + cbn. lia.
    + intros i _. reflexivity.
    + discriminate.
Defined.

(** C2 as stated fails for a spawn error: with one retry allowed and
    [error_ok] set, a child that cannot be created on the first pass is
    not warned about and the loop does not go on; the error is raised
    after that single spawn attempt. *)
Lemma C2_counterexample :
  snd (OldRunCommand (CmdList ["nonesuch"]) (legacy true false false 1)
         (fresh_world (fun _ => SpawnRaises (OSError "ENOENT")))) =
    Raise (OSError "ENOENT") /\
  warnings (trace (fst (OldRunCommand (CmdList ["nonesuch"])
                          (legacy true false false 1)
                          (fresh_world (fun _ => SpawnRaises (OSError "ENOENT"))))))
    = 0 /\
  attempts (trace (fst (OldRunCommand (CmdList ["nonesuch"])
                          (legacy true false false 1)
                          (fresh_world (fun _ => SpawnRaises (OSError "ENOENT"))))))
    = 1.
Proof. repeat split. Qed.

(** ** C5: the two shapes of the legacy result *)

(** C5, at the input on which the code departs from it.  In exit-code
    mode with one retry allowed, a child that exits with code 0 on the
    first pass makes [OldRunCommand] return the captured output, where
    its docstring promises the exit code. *)
Theorem C5_exit_code_mode_returns_output :
  snd (OldRunCommand (CmdList ["true"]) (legacy false true false 1)
         (fresh_world (fun _ => child_exit "some" EmptyString 0))) =
    Ret (Output (Some "some")) /\
  snd (OldRunCommand (CmdList ["true"]) (legacy false true false 0)
         (fresh_world (fun _ => child_exit "some" EmptyString 0))) =
    Ret (ReturnCode 0).
Proof. split; reflexivity. Qed.

(** ** C6: retrying until the command succeeds *)

(** C6.  With [num_retries] equal to [N], children that end with a
    non-zero exit code on the first [N] passes and a child that exits
    with code 0 on pass [N + 1]: the call makes exactly [N + 1] spawn
    attempts, returns the result of the last one (its output, or its exit
    code 0 in exit-code mode), emits exactly [N] warnings and raises
    nothing. *)
Theorem C6_retry_until_success (cmd : command) (kw : ORC.kwargs) (w : world)
  (run : option string -> comm_outcome) (out err : string) :
  ORC.enter_chroot kw && is_string cmd = false ->
  (forall i, i < ORC.num_retries kw ->
     fails_nonzero (children w (spawned w + i))
       (child_stdin (ORC.input kw)) = true) ->
  children w (spawned w + ORC.num_retries kw) = Spawns run ->
  run (child_stdin (ORC.input kw)) = Terminates out err 0 ->
  exists w',
    OldRunCommand cmd kw w =
      (w', Ret (if ORC.exit_code kw then ReturnCode 0
                else Output (captured (ORC.redirect_stdout kw) out))) /\
    warnings (trace w') = warnings (trace w) + ORC.num_retries kw /\
    attempts (trace w') = attempts (trace w) + (ORC.num_retries kw + 1).
Proof.
  intros Hok Hf Hc Hr.
  destruct (OldRunCommand_after_failures cmd kw w (ORC.num_retries kw) Hok
              (le_n _) Hf) as (w1 & l1 & Hcall & Hs1).
  rewrite Hcall, Nat.sub_diag. cbn [seq].
  assert (Hc1 : children w1 (spawned w1) = Spawns run).
  { destruct Hs1 as (Hch & Hsp & _). now rewrite Hch, Hsp. }
  destruct (attempt_zero (legacy_cmd kw cmd) kw (ORC.num_retries kw)
              w1 l1 run out err Hc1 Hr) as (w2 & Hb & Hs2).
  rewrite Nat.eqb_refl, andb_true_r in Hb.
  rewrite retry_loop_cons, Hb. exists w2.
  destruct (stepped_trans _ _ _ _ _ _ _ Hs1 Hs2) as (_ & _ & Hw & Ha).
  split; [destruct (ORC.exit_code kw); reflexivity|].
  split; [rewrite Hw; lia | exact Ha].
Qed.

Lemma C6_retry_until_success_witness :
  exists w',
    OldRunCommand (CmdList ["make"]) (legacy false false false 2)
      (fresh_world flaky) = (w', Ret (Output (Some "done"))) /\
    warnings (trace w') = 2 /\
    attempts (trace w') = 3.
Proof.
  refine (C6_retry_until_success (CmdList ["make"]) (legacy false false false 2)
            (fresh_world flaky) (fun _ => Terminates "done" EmptyString 0)
            "done" EmptyString eq_refl _ eq_refl eq_refl).
  intros [|[|i]] Hi; [reflexivity | reflexivity | cbn in Hi; lia].
Defined.

(** ** C7: running out of retries *)

(** C7, as amended.  With [num_retries] equal to [N], [error_ok] false,
    outside exit-code mode, and children that all end with a non-zero
    exit code, the call makes exactly [N + 1] spawn attempts, warns about
    the first [N] and raises the failure of the last. *)
Theorem C7_retries_exhausted (cmd : command) (kw : ORC.kwargs) (w : world)
  (run : option string -> comm_outcome) (out err : string) (code : Z) :
  ORC.error_ok kw = false ->
  ORC.exit_code kw = false ->
  ORC.enter_chroot kw && is_string cmd = false ->
  (forall i, i < ORC.num_retries kw ->
     fails_nonzero (children w (spawned w + i))
       (child_stdin (ORC.input kw)) = true) ->
  children w (spawned w + ORC.num_retries kw) = Spawns run ->
  run (child_stdin (ORC.input kw)) = Terminates out err code ->
  code <> 0%Z ->
  exists w',
    OldRunCommand cmd kw w =
      (w', Raise (RunCommandException
                    (legacy_failure_message (legacy_cmd kw cmd)
                       (ORC.error_message kw)
                       (captured (ORC.redirect_stderr kw) err)
                       (captured (ORC.redirect_stdout kw) out)))) /\
    attempts (trace w') = attempts (trace w) + (ORC.num_retries kw + 1) /\
    warnings (trace w') = warnings (trace w) + ORC.num_retries kw.
Proof.
  intros Heo Hec Hok Hf Hc Hr Hz.
  destruct (OldRunCommand_all_fail cmd kw w run out err code Hok Hf Hc Hr Hz)
    as (w' & Hcall & _ & _ & Hw & Ha).
  exists w'. rewrite Hcall, Hw, Ha, Heo, Hec. cbn.
  repeat split; lia.
Qed.

Lemma C7_retries_exhausted_witness :
  exists w',
    OldRunCommand (CmdList ["false"]) (legacy false false false 2)
      (fresh_world (fun _ => child_exit EmptyString "boom" 1)) =
      (w', Raise (RunCommandException
                    (legacy_failure_message (CmdList ["false"]) None
                       (Some "boom") (Some EmptyString)))) /\
    attempts (trace w') = 3 /\
    warnings (trace w') = 2.
Proof.
  exact (C7_retries_exhausted (CmdList ["false"]) (legacy false false false 2)
           (fresh_world (fun _ => child_exit EmptyString "boom" 1))
           (fun _ => Terminates EmptyString "boom" 1) EmptyString "boom" 1%Z
           eq_refl eq_refl eq_refl (fun _ _ => eq_refl) eq_refl eq_refl
           ltac:(discriminate)).
Defined.

(** C7 as stated fails in exit-code mode: with [error_ok] false, one
    retry and children that always exit with code 1, the call makes its
    two attempts and then returns 1; it raises nothing. *)
Lemma C7_counterexample :
  snd (OldRunCommand (CmdList ["false"]) (legacy false true false 1)
         (fresh_world (fun _ => child_exit EmptyString "boom" 1))) =
    Ret (ReturnCode 1) /\
  attempts (trace (fst (OldRunCommand (CmdList ["false"])
                          (legacy false true false 1)
                          (fresh_world
                             (fun _ => child_exit EmptyString "boom" 1)))))
    = 2.
Proof. split; reflexivity. Qed.

(** ** C3: the SIGINT handler after a guarded call *)

(** C3, as amended.  After a call with [ignore_sigint] set, whatever the
    child does and whether the call returns or raises, the SIGINT slot
    holds what it held before the call.  It is written twice when the
    child was spawned, the second write restoring the previous handler,
    and not at all when the child could not be created. *)
Theorem C3_sigint_restored (cmd : command) (kw : RC.kwargs) (w : world) :
  RC.ignore_sigint kw = true ->
  exists evs,
    trace (fst (RunCommand cmd kw w)) = trace w ++ evs /\
    sigint (fst (RunCommand cmd kw w)) = sigint w /\
    signal_writes evs =
      match children w (spawned w) with
      | SpawnRaises _ => []
      | Spawns _ => [EvSignal SIG_IGN; EvSignal (sigint w)]
      end.
Proof.
  intros H.
  destruct kw as [pc eo em ec ro re cw inp ch sh en ig]; cbn in H; subst ig.
  py_unfold. split_cases.
  all: try congruence.
  all: eexists; split; [rewrite <- ?app_assoc; reflexivity | split; reflexivity].
Qed.

Lemma C3_sigint_restored_witness :
  exists evs,
    trace (fst (RunCommand (CmdList ["sleep"; "1"]) guarded
                  (fresh_world (fun _ => child_exit EmptyString "boom" 1)))) =
      [] ++ evs /\
    sigint (fst (RunCommand (CmdList ["sleep"; "1"]) guarded
                   (fresh_world (fun _ => child_exit EmptyString "boom" 1)))) =
      SIG_DFL /\
    signal_writes evs = [EvSignal SIG_IGN; EvSignal SIG_DFL].
Proof.
  exact (C3_sigint_restored (CmdList ["sleep"; "1"]) guarded
           (fresh_world (fun _ => child_exit EmptyString "boom" 1)) eq_refl).
Defined.

(** C3 as stated fails when the child cannot be created: the call below
    never writes the previous handler [SIG_DFL] back, since it never
    replaced it; the number of restorations is 0, not 1. *)
Lemma C3_counterexample :
  installs SIG_DFL
    (trace (fst (RunCommand (CmdList ["nonesuch"]) guarded
                   (fresh_world (fun _ => SpawnRaises (OSError "ENOENT"))))))
    = 0 /\
  snd (RunCommand (CmdList ["nonesuch"]) guarded
         (fresh_world (fun _ => SpawnRaises (OSError "ENOENT")))) =
    Raise (OSError "ENOENT").
Proof. split; reflexivity. Qed.

(** ** C8: when the guard is in place *)

(** Where the guard is.  With [ignore_sigint] set and a child that
    starts, the call spawns the child under the caller's handler,
    installs [SIG_IGN] right after the spawn and right before
    [communicate], and restores the previous handler right after
    [communicate] ends, whether it returned or raised. *)
Lemma guard_around_communicate (cmd : command) (kw : RC.kwargs)
  (w : world) (run : option string -> comm_outcome) :
  RC.ignore_sigint kw = true ->
  children w (spawned w) = Spawns run ->
  exists pre a post,
    trace (fst (RunCommand cmd kw w)) =
      trace w ++ pre
      ++ [EvPopen a; EvSignal SIG_IGN; EvCommunicate (RC.input kw);
          EvSignal (sigint w)]
      ++ post /\
    signal_writes pre = [] /\ attempts pre = 0 /\
    signal_writes post = [] /\ attempts post = 0 /\
    sigint_at_spawn (sigint w)
      (pre ++ [EvPopen a; EvSignal SIG_IGN; EvCommunicate (RC.input kw);
               EvSignal (sigint w)] ++ post) = Some (sigint w).
Proof.
  intros H Hc.
  destruct kw as [pc eo em ec ro re cw inp ch sh en ig]; cbn in H; subst ig.
  py_unfold. cbn.
  destruct pc; cbn; rewrite Hc; split_cases.
  all: match goal with
       | |- context [EvInfo ?t] =>
           match goal with
           | |- context [EvWarning ?u] =>
               exists [EvInfo t]; eexists; exists [EvWarning u]
           | |- _ => exists [EvInfo t]; eexists; exists []
           end
       | |- context [EvWarning ?u] => exists []; eexists; exists [EvWarning u]
       | |- _ => exists []; eexists; exists []
       end.
  all: split; [cbn; rewrite <- ?app_assoc; reflexivity | repeat split].
Qed.

Lemma guard_around_communicate_example :
  exists pre a post,
    trace (fst (RunCommand (CmdList ["sleep"; "1"]) guarded
                  (fresh_world (fun _ => child_exit EmptyString EmptyString 0)))) =
      [] ++ pre
      ++ [EvPopen a; EvSignal SIG_IGN; EvCommunicate None; EvSignal SIG_DFL]
      ++ post /\
    signal_writes pre = [] /\ attempts pre = 0 /\
    signal_writes post = [] /\ attempts post = 0 /\
    sigint_at_spawn SIG_DFL
      (pre ++ [EvPopen a; EvSignal SIG_IGN; EvCommunicate None;
               EvSignal SIG_DFL] ++ post) = Some SIG_DFL.
Proof.
  exact (guard_around_communicate (CmdList ["sleep"; "1"]) guarded
           (fresh_world (fun _ => child_exit EmptyString EmptyString 0))
           (fun _ => Terminates EmptyString EmptyString 0) eq_refl eq_refl).
Defined.


(** ** C4: the chroot rewrite *)

(** Where the rewrite is applied.  With [enter_chroot] set, [RunCommand]
    hands [Popen] the chroot-entry program, the separator and the
    original command, in the form the caller used (one string, or a list
    of tokens), and a result it returns echoes that rewritten command.
    [OldRunCommand] hands every [Popen] call of its loop the same
    rewritten list when the command is a list of tokens; its result
    echoes no command. *)
Lemma chroot_rewrite_applied :
  (forall (cmd : command) (kw : RC.kwargs) (w : world),
      RC.enter_chroot kw = true ->
      (exists a,
         popens (trace (fst (RunCommand cmd kw w))) = popens (trace w) ++ [a] /\
         pa_cmd a = chroot_entry cmd) /\
      (forall r,
         snd (RunCommand cmd kw w) = Ret r ->
         CommandResult.cmd r = Some (chroot_entry cmd))) /\
  (forall (argv : list string) (kw : ORC.kwargs) (w : world),
      ORC.enter_chroot kw = true ->
      exists n a,
        1 <= n /\
        popens (trace (fst (OldRunCommand (CmdList argv) kw w))) =
          popens (trace w) ++ repeat a n /\
        pa_cmd a = CmdList ("./enter_chroot.sh" :: "--" :: argv)).
Proof.
  split.
  - intros cmd kw w Hch. split.
    + eexists. split; [apply RunCommand_popens|].
      cbn. rewrite Hch. apply rewrite_cmd_chroot.
    + intros r Hr. rewrite (RunCommand_echo cmd kw w r Hr), Hch.
      now rewrite rewrite_cmd_chroot.
  - intros argv kw w Hch.
    destruct (OldRunCommand_popens (CmdList argv) kw w) as (n & Hn & Hp).
    { rewrite Hch. reflexivity. }
    exists n. eexists. split; [exact Hn|]. split; [exact Hp|].
    unfold legacy_cmd. rewrite Hch. reflexivity.
Qed.

Lemma chroot_rewrite_applied_example :
  ((exists a,
      popens (trace (fst (RunCommand (CmdStr "ls -l")
                            chrooted
                            (fresh_world
                               (fun _ => child_exit EmptyString EmptyString 0)))))
        = [] ++ [a] /\
      pa_cmd a = CmdStr "./enter_chroot.sh -- ls -l") /\
   (forall r,
      snd (RunCommand (CmdStr "ls -l")
             chrooted
             (fresh_world (fun _ => child_exit EmptyString EmptyString 0))) =
        Ret r ->
      CommandResult.cmd r = Some (CmdStr "./enter_chroot.sh -- ls -l"))) /\
  (exists n a,
     1 <= n /\
     popens (trace (fst (OldRunCommand (CmdList ["ls"; "-l"])
                           (legacy false false true 0)
                           (fresh_world
                              (fun _ => child_exit EmptyString EmptyString 0)))))
       = [] ++ repeat a n /\
     pa_cmd a = CmdList ["./enter_chroot.sh"; "--"; "ls"; "-l"]).
Proof.
  split.
  - exact (proj1 chroot_rewrite_applied (CmdStr "ls -l") chrooted
             (fresh_world (fun _ => child_exit EmptyString EmptyString 0))
             eq_refl).
  - exact (proj2 chroot_rewrite_applied ["ls"; "-l"]
             (legacy false false true 0)
             (fresh_world (fun _ => child_exit EmptyString EmptyString 0))
             eq_refl).
Defined.

(** C4, at the input on which the code departs from it.  For a command
    given as one string, which its docstring accepts, [OldRunCommand]
    with [enter_chroot] adds a list to the string at line 355: the call
    raises [TypeError] and nothing is executed.  [RunCommand] rewrites
    the same string and hands it to [Popen]. *)
Theorem C4_legacy_string_chroot_raises :
  snd (OldRunCommand (CmdStr "ls -l") (legacy false false true 0)
         (fresh_world (fun _ => child_exit EmptyString EmptyString 0))) =
    Raise (TypeError ("can only concatenate list (not " ++ DQ ++ "str" ++ DQ
                      ++ ") to list")%string) /\
  popens (trace (fst (OldRunCommand (CmdStr "ls -l")
                        (legacy false false true 0)
                        (fresh_world
                           (fun _ => child_exit EmptyString EmptyString 0)))))
    = [] /\
  map pa_cmd
    (popens (trace (fst (RunCommand (CmdStr "ls -l") chrooted
                           (fresh_world
                              (fun _ => child_exit EmptyString EmptyString 0))))))
    = [CmdStr "./enter_chroot.sh -- ls -l"].
Proof. repeat split; reflexivity. Qed.

(** ** C9: the message of a raised failure *)

(** C9, as amended.  The failure that either function raises for a
    non-zero exit code carries the text [Command "..." failed.] and a
    newline, followed by the first of [error_message], the captured
    stderr and the captured stdout that is present and not empty, or by
    nothing.  Between the quotes [RunCommand] puts the rendered command
    line; [OldRunCommand] puts the [repr] of the command. *)
Theorem C9_failure_message :
  (forall (cmd : command) (kw : RC.kwargs) (w : world)
          (run : option string -> comm_outcome) (out err : string) (code : Z),
      RC.error_ok kw = false ->
      children w (spawned w) = Spawns run ->
      run (child_stdin (RC.input kw)) = Terminates out err code ->
      code <> 0%Z ->
      snd (RunCommand cmd kw w) =
        Raise (RunCommandError
                 ("Command " ++ DQ
                  ++ render (rewrite_cmd (RC.enter_chroot kw) cmd)
                  ++ DQ ++ " failed." ++ NL
                  ++ preferred_detail (RC.error_message kw)
                       (captured (RC.redirect_stderr kw) err)
                       (captured (RC.redirect_stdout kw) out))%string)) /\
  (forall (cmd : command) (kw : ORC.kwargs) (w : world)
          (run : option string -> comm_outcome) (out err : string) (code : Z),
      ORC.error_ok kw = false ->
      ORC.exit_code kw = false ->
      ORC.enter_chroot kw && is_string cmd = false ->
      (forall i, i < ORC.num_retries kw ->
         fails_nonzero (children w (spawned w + i))
           (child_stdin (ORC.input kw)) = true) ->
      children w (spawned w + ORC.num_retries kw) = Spawns run ->
      run (child_stdin (ORC.input kw)) = Terminates out err code ->
      code <> 0%Z ->
      snd (OldRunCommand cmd kw w) =
        Raise (RunCommandException
                 ("Command " ++ DQ ++ Repr.repr (legacy_cmd kw cmd)
                  ++ DQ ++ " failed." ++ NL
                  ++ preferred_detail (ORC.error_message kw)
                       (captured (ORC.redirect_stderr kw) err)
                       (captured (ORC.redirect_stdout kw) out))%string)).
Proof.
  split.
  - intros cmd kw w run out err code Heo Hc Hr Hz.
    destruct (RunCommand_terminates cmd kw w run out err code Hc Hr)
      as (w' & Hcall & _).
    rewrite Hcall, Heo, (nonzero_true code Hz). cbn [snd negb andb].
    unfold failure_message. now rewrite preferred_detail_or.
  - intros cmd kw w run out err code Heo Hec Hok Hf Hc Hr Hz.
    destruct (OldRunCommand_all_fail cmd kw w run out err code Hok Hf Hc Hr Hz)
      as (w' & Hcall & _).
    rewrite Hcall, Heo, Hec. cbn [snd negb].
    unfold legacy_failure_message. now rewrite preferred_detail_or.
Qed.

Lemma C9_failure_message_witness :
  snd (RunCommand (CmdList ["grep"; "-q"; "x"])
         with_message
         (fresh_world (fun _ => child_exit "some" "boom" 1))) =
    Raise (RunCommandError
             ("Command " ++ DQ ++ "grep -q x" ++ DQ ++ " failed." ++ NL
              ++ "no match")%string) /\
  snd (OldRunCommand (CmdList ["grep"; "-q"; "x"]) (legacy false false false 0)
         (fresh_world (fun _ => child_exit "some" "boom" 1))) =
    Raise (RunCommandException
             ("Command " ++ DQ ++ "['grep', '-q', 'x']" ++ DQ ++ " failed."
              ++ NL ++ "boom")%string).
Proof.
  split.
  - exact (proj1 C9_failure_message (CmdList ["grep"; "-q"; "x"]) with_message
             (fresh_world (fun _ => child_exit "some" "boom" 1))
             (fun _ => Terminates "some" "boom" 1) "some" "boom" 1%Z
             eq_refl eq_refl eq_refl ltac:(discriminate)).
  - exact (proj2 C9_failure_message (CmdList ["grep"; "-q"; "x"])
             (legacy false false false 0)
             (fresh_world (fun _ => child_exit "some" "boom" 1))
             (fun _ => Terminates "some" "boom" 1) "some" "boom" 1%Z
             eq_refl eq_refl eq_refl
             (fun i (H : i < 0) => match Nat.nlt_0_r i H with end)
             eq_refl eq_refl ltac:(discriminate)).
Defined.

(** C9 as stated fails for a caller who gives an empty [error_message]:
    the message then carries the captured stderr, not the (empty) text
    the caller gave. *)
Lemma C9_counterexample :
  snd (RunCommand (CmdList ["false"]) blank_message
         (fresh_world (fun _ => child_exit "some" "boom" 1))) =
    Raise (RunCommandError
             ("Command " ++ DQ ++ "false" ++ DQ ++ " failed." ++ NL
              ++ "boom")%string) /\
  snd (RunCommand (CmdList ["false"]) blank_message
         (fresh_world (fun _ => child_exit "some" "boom" 1))) <>
    Raise (RunCommandError
             ("Command " ++ DQ ++ "false" ++ DQ ++ " failed." ++ NL
              ++ or_empty (RC.error_message blank_message))%string).
Proof. split; [reflexivity | discriminate]. Qed.

(** ** C10: what reaches the child's stdin *)

(** C10, as amended.  Both functions attach a pipe to the child's stdin
    exactly when [input] is present and not empty; with no [input], or an
    empty one, the child inherits the parent's stdin.  With an [input]
    that is not empty, capture of stdout, and a child that copies that
    stdin to its stdout and exits with code 0, the result of [RunCommand]
    holds the input as its captured stdout. *)
Theorem C10_input_piping :
  (forall (cmd : command) (kw : RC.kwargs) (w : world),
      exists a,
        popens (trace (fst (RunCommand cmd kw w))) = popens (trace w) ++ [a] /\
        pa_stdin a = match RC.input kw with
                     | Some (String _ _) => PIPE
                     | _ => Inherit
                     end) /\
  (forall (cmd : command) (kw : ORC.kwargs) (w : world),
      ORC.enter_chroot kw && is_string cmd = false ->
      exists n a,
        1 <= n /\
        popens (trace (fst (OldRunCommand cmd kw w))) =
          popens (trace w) ++ repeat a n /\
        pa_stdin a = match ORC.input kw with
                     | Some (String _ _) => PIPE
                     | _ => Inherit
                     end) /\
  (forall (cmd : command) (kw : RC.kwargs) (w : world)
          (run : option string -> comm_outcome) (d err : string),
      RC.input kw = Some d ->
      d <> EmptyString ->
      RC.redirect_stdout kw = true ->
      children w (spawned w) = Spawns run ->
      run (Some d) = Terminates d err 0 ->
      exists r,
        snd (RunCommand cmd kw w) = Ret r /\
        CommandResult.output r = Some d).
Proof.
  split; [|split].
  - intros cmd kw w. eexists. split; [apply RunCommand_popens|].
    cbn. now destruct (RC.input kw) as [[|c s]|].
  - intros cmd kw w Hok.
    destruct (OldRunCommand_popens cmd kw w Hok) as (n & Hn & Hp).
    exists n. eexists. split; [exact Hn|]. split; [exact Hp|].
    cbn. now destruct (ORC.input kw) as [[|c s]|].
  - intros cmd kw w run d err Hin Hd Hro Hc Hr.
    assert (Hfed : child_stdin (RC.input kw) = Some d).
    { rewrite Hin. destruct d; [congruence | reflexivity]. }
    rewrite <- Hfed in Hr.
    destruct (RunCommand_terminates cmd kw w run d err 0%Z Hc Hr)
      as (w' & Hcall & _).
    rewrite Hcall, andb_false_r. eexists. split; [reflexivity|].
    cbn. now rewrite Hro.
Qed.

Lemma C10_input_piping_witness :
  exists r,
    snd (RunCommand (CmdList ["cat"]) (piping (Some hello))
           (fresh_world (fun _ => child_cat))) = Ret r /\
    CommandResult.output r = Some hello.
Proof.
  refine (proj2 (proj2 C10_input_piping) (CmdList ["cat"])
            (piping (Some hello)) (fresh_world (fun _ => child_cat))
            (fun fed => Terminates (or_empty fed) EmptyString 0)
            hello EmptyString eq_refl _ eq_refl eq_refl eq_refl).
  discriminate.
Defined.

(** C10 as stated fails for an [input] that is present and empty: the
    child of the call below is not given a pipe; it inherits the parent's
    stdin. *)
Lemma C10_counterexample :
  map pa_stdin
    (popens (trace (fst (RunCommand (CmdList ["cat"])
                           (piping (Some EmptyString))
                           (fresh_world (fun _ => child_cat))))))
    = [Inherit].
Proof. reflexivity. Qed.

(** * Further properties of the two calling conventions *)

(** ** [RunCommand]: exceptions from the child machinery *)

(** X1.  When [Popen] or [communicate] raises [e], a call with [error_ok]
    false re-raises [e] unchanged and warns about nothing.  With
    [error_ok] set and [e] an [Exception], the call swallows it: it emits
    one warning, whose text is [str(e)], and returns a result that holds
    the command and nothing else.  An exception that is not an
    [Exception] is re-raised whatever [error_ok] is. *)
Theorem X1_RunCommand_exception (cmd : command) (kw : RC.kwargs) (w : world)
  (e : exn) :
  (children w (spawned w) = SpawnRaises e \/
   exists run,
     children w (spawned w) = Spawns run /\
     run (child_stdin (RC.input kw)) = CommRaises e) ->
  exists w' evs,
    RunCommand cmd kw w =
      (w',
       if RC.error_ok kw && is_Exception e
       then Ret {| CommandResult.cmd :=
                     Some (rewrite_cmd (RC.enter_chroot kw) cmd);
                   CommandResult.error := None;
                   CommandResult.output := None;
                   CommandResult.returncode := None |}
       else Raise e) /\
    trace w' = trace w ++ evs /\
    attempts evs = 1 /\
    filter is_warning evs =
      (if RC.error_ok kw && is_Exception e
       then [EvWarning (Color.Color (_STDOUT_IS_TTY w) Color.YELLOW
                          (NL ++ "WARNING: " ++ str_exn e)%string)]
       else []).
Proof.
  intros H.
  destruct kw as [pc eo em ec ro re cw inp ch sh en ig].
  destruct H as [Hc | (run & Hc & Hr)].
  - py_unfold. cbn.
    destruct pc, eo, e; cbn; rewrite Hc; cbn;
      (eexists; eexists; split; [reflexivity|]);
      (split; [cbn; rewrite <- ?app_assoc; reflexivity|]);
      split; reflexivity.
  - py_unfold. cbn. revert Hr. cbn.
    destruct (truthy inp), pc, eo, ig, e; cbn; intros Hr;
      rewrite Hc; cbn; rewrite Hr; cbn;
      (eexists; eexists; split; [reflexivity|]);
      (split; [cbn; rewrite <- ?app_assoc; reflexivity|]);
      split; reflexivity.
Qed.

Lemma X1_RunCommand_exception_witness :
  exists w' evs,
    RunCommand (CmdList ["nonesuch"]) tolerant
      (fresh_world (fun _ => SpawnRaises (OSError "ENOENT"))) =
      (w',
       Ret {| CommandResult.cmd := Some (CmdList ["nonesuch"]);
              CommandResult.error := None;
              CommandResult.output := None;
              CommandResult.returncode := None |}) /\
    trace w' = [] ++ evs /\
    attempts evs = 1 /\
    filter is_warning evs = [EvWarning (NL ++ "WARNING: ENOENT")%string].
Proof.
  exact (X1_RunCommand_exception (CmdList ["nonesuch"]) tolerant
           (fresh_world (fun _ => SpawnRaises (OSError "ENOENT")))
           (OSError "ENOENT") (or_introl eq_refl)).
Defined.

(** ** [RunCommand]: what a returned result holds *)

(** X2.  Whatever the child does, a result that [RunCommand] returns
    echoes the rewritten command, and a field the caller did not ask for
    is [None]: [output] without [redirect_stdout], [error] without
    [redirect_stderr], [returncode] without [exit_code]. *)
Theorem X2_RunCommand_unrequested_fields (cmd : command) (kw : RC.kwargs)
  (w : world) (r : CommandResult.t) :
  snd (RunCommand cmd kw w) = Ret r ->
  CommandResult.cmd r = Some (rewrite_cmd (RC.enter_chroot kw) cmd) /\
  (RC.redirect_stdout kw = false -> CommandResult.output r = None) /\
  (RC.redirect_stderr kw = false -> CommandResult.error r = None) /\
  (RC.exit_code kw = false -> CommandResult.returncode r = None).
Proof.
  destruct kw as [pc eo em ec ro re cw inp ch sh en ig].
  py_unfold. split_cases.
  all: intros H; try discriminate H; injection H as <-; cbn.
  all: repeat split; intros; try reflexivity; discriminate.
Qed.

Lemma X2_RunCommand_unrequested_fields_witness :
  CommandResult.cmd
    {| CommandResult.cmd := Some (CmdList ["sleep"; "1"]);
       CommandResult.error := None; CommandResult.output := None;
       CommandResult.returncode := None |} =
    Some (CmdList ["sleep"; "1"]) /\
  (false = false ->
   CommandResult.output
     {| CommandResult.cmd := Some (CmdList ["sleep"; "1"]);
        CommandResult.error := None; CommandResult.output := None;
        CommandResult.returncode := None |} = None) /\
  (false = false ->
   CommandResult.error
     {| CommandResult.cmd := Some (CmdList ["sleep"; "1"]);
        CommandResult.error := None; CommandResult.output := None;
        CommandResult.returncode := None |} = None) /\
  (false = false ->
   CommandResult.returncode
     {| CommandResult.cmd := Some (CmdList ["sleep"; "1"]);
        CommandResult.error := None; CommandResult.output := None;
        CommandResult.returncode := None |} = None).
Proof.
  exact (X2_RunCommand_unrequested_fields (CmdList ["sleep"; "1"]) guarded
           (fresh_world (fun _ => child_exit "some" "boom" 0)) _ eq_refl).
Defined.



(** ** The SIGINT slot outside the guard *)

Lemma attempt_signals (cmd : command) (kw : ORC.kwargs)
  (stdin stdout stderr : redirect) (rc : nat) (w : world) (l : option string) :
  sigint (fst (fst (attempt cmd kw stdin stdout stderr rc (w, l)))) = sigint w /\
  signal_writes
    (trace (fst (fst (attempt cmd kw stdin stdout stderr rc (w, l))))) =
  signal_writes (trace w).
Proof.
  destruct kw as [pc eo em ec ro re cw inp ch nr].
  py_unfold. unfold signal_writes. split_cases.
  all: cbn; rewrite ?filter_app; cbn; rewrite ?app_nil_r; split; reflexivity.
Qed.

Lemma retry_loop_signals (cmd : command) (kw : ORC.kwargs) (items : list nat) :
  forall (w : world) (l : option string),
    sigint (fst (fst (retry_loop cmd kw items (w, l)))) = sigint w /\
    signal_writes (trace (fst (fst (retry_loop cmd kw items (w, l))))) =
    signal_writes (trace w).
Proof.
  induction items as [|i rest IH]; intros w l.
  - split; reflexivity.
  - rewrite retry_loop_cons.
    pose proof (attempt_signals cmd kw (pipe_if (truthy (ORC.input kw)))
                  (pipe_if (ORC.redirect_stdout kw))
                  (pipe_if (ORC.redirect_stderr kw)) i w l) as (Hs & Ht).
    destruct (attempt cmd kw _ _ _ i (w, l)) as [[w1 l1] [[| |a]|e]];
      cbn [fst snd] in Hs, Ht |- *; try (split; assumption).
    destruct (IH w1 l1) as (Hs' & Ht'). split; congruence.
Qed.

(** X4.  [OldRunCommand] never touches the SIGINT slot, and neither does
    [RunCommand] without [ignore_sigint]: whatever the children do, the
    handler after the call is the handler before it and the call makes no
    [signal.signal] call. *)
Theorem X4_sigint_untouched :
  (forall (cmd : command) (kw : ORC.kwargs) (w : world),
      sigint (fst (OldRunCommand cmd kw w)) = sigint w /\
      signal_writes (trace (fst (OldRunCommand cmd kw w))) =
      signal_writes (trace w)) /\
  (forall (cmd : command) (kw : RC.kwargs) (w : world),
      RC.ignore_sigint kw = false ->
      sigint (fst (RunCommand cmd kw w)) = sigint w /\
      signal_writes (trace (fst (RunCommand cmd kw w))) =
      signal_writes (trace w)).
Proof.
  split.
  - intros cmd kw w.
    unfold OldRunCommand, OldRunCommand_body, legacy_rewrite_cmd, when, Info,
      bind, ret, raise, get_world, modify_world.
    destruct (ORC.enter_chroot kw), cmd as [s|argv], (ORC.print_cmd kw); cbn;
      try (split; reflexivity);
      match goal with
      | |- context [retry_loop ?c kw ?items (?w0, ?l0)] =>
          destruct (retry_loop_signals c kw items w0 l0) as (Hs & Ht);
          destruct (retry_loop c kw items (w0, l0)) as [[w1 l1] r]
      end;
      cbn [fst snd] in Hs, Ht |- *; rewrite Hs, Ht; cbn;
      unfold signal_writes; rewrite ?filter_app; cbn; rewrite ?app_nil_r;
      split; reflexivity.
  - intros cmd kw w H.
    destruct kw as [pc eo em ec ro re cw inp ch sh en ig]; cbn in H; subst ig.
    py_unfold. unfold signal_writes. split_cases.
    all: cbn; rewrite ?filter_app; cbn; rewrite ?app_nil_r; split; reflexivity.
Qed.

Lemma X4_sigint_untouched_witness :
  sigint (fst (RunCommand (CmdList ["false"]) tolerant
                 (fresh_world (fun _ => child_exit "some" "boom" 1)))) =
    SIG_DFL /\
  signal_writes (trace (fst (RunCommand (CmdList ["false"]) tolerant
                               (fresh_world
                                  (fun _ => child_exit "some" "boom" 1))))) =
    [].
Proof.
  exact (proj2 X4_sigint_untouched (CmdList ["false"]) tolerant
           (fresh_world (fun _ => child_exit "some" "boom" 1)) eq_refl).
Defined.

(** ** The legacy loop: how many children, and when it stops *)

Lemma attempts_popens (t : list event) : attempts t = length (popens t).
Proof.
  unfold attempts. induction t as [|e t IH]; [reflexivity|].
  destruct e; cbn; now rewrite ?IH.
Qed.

Lemma retry_loop_attempts (cmd : command) (kw : ORC.kwargs) (items : list nat) :
  forall (w : world) (l : option string),
    attempts (trace (fst (fst (retry_loop cmd kw items (w, l)))))
    <= attempts (trace w) + length items.
Proof.
  induction items as [|i rest IH]; intros w l.
  - cbn. lia.
  - rewrite retry_loop_cons.
    pose proof (attempt_popens cmd kw i w l) as Hp.
    apply (f_equal (@length _)) in Hp.
    rewrite length_app, <- !attempts_popens in Hp. cbn [length] in Hp.
    destruct (attempt cmd kw _ _ _ i (w, l)) as [[w1 l1] [[| |a]|e]];
      cbn [fst snd length] in Hp |- *; try lia.
    specialize (IH w1 l1). lia.
Qed.

Lemma OldRunCommand_attempts_le (cmd : command) (kw : ORC.kwargs) (w : world) :
  ORC.enter_chroot kw && is_string cmd = false ->
  attempts (trace (fst (OldRunCommand cmd kw w)))
  <= attempts (trace w) + (ORC.num_retries kw + 1).
Proof.
  intros Hok.
  destruct (OldRunCommand_start cmd kw w Hok) as (w0 & Hstart & Hs & _).
  rewrite Hstart.
  pose proof (retry_loop_attempts (legacy_cmd kw cmd) kw
                (range (ORC.num_retries kw + 1)) w0 (Some EmptyString)) as Hb.
  destruct (retry_loop _ kw _ (w0, Some EmptyString)) as [[w1 l1] r].
  cbn [fst] in Hb |- *. unfold range in Hb. rewrite length_seq in Hb.
  destruct Hs as (_ & _ & _ & Ha). lia.
Qed.

(** A legacy call whose first [k] children end with a non-zero exit code
    and whose next child exits with code 0. *)
Lemma OldRunCommand_success_at (cmd : command) (kw : ORC.kwargs) (w : world)
  (k : nat) (run : option string -> comm_outcome) (out err : string) :
  ORC.enter_chroot kw && is_string cmd = false ->
  k <= ORC.num_retries kw ->
  (forall i, i < k ->
     fails_nonzero (children w (spawned w + i))
       (child_stdin (ORC.input kw)) = true) ->
  children w (spawned w + k) = Spawns run ->
  run (child_stdin (ORC.input kw)) = Terminates out err 0 ->
  exists w',
    OldRunCommand cmd kw w =
      (w', Ret (if ORC.exit_code kw && (k =? ORC.num_retries kw)%nat
                then ReturnCode 0
                else Output (captured (ORC.redirect_stdout kw) out))) /\
    stepped w w' (k + 1) k.
Proof.
  intros Hok Hk Hf Hc Hr.
  destruct (OldRunCommand_after_failures cmd kw w k Hok Hk Hf)
    as (w1 & l1 & Hcall & Hs1).
  rewrite Hcall.
  assert (Hc1 : children w1 (spawned w1) = Spawns run).
  { destruct Hs1 as (Hch & Hsp & _). now rewrite Hch, Hsp. }
  destruct (attempt_zero (legacy_cmd kw cmd) kw k w1 l1 run out err Hc1 Hr)
    as (w2 & Hb & Hs2).
  rewrite retry_loop_cons, Hb. exists w2. split.
  - destruct (ORC.exit_code kw && (k =? ORC.num_retries kw)%nat); reflexivity.
  - replace k with (k + 0) at 2 by lia.
    exact (stepped_trans _ _ _ _ _ _ _ Hs1 Hs2).
Qed.

(** X5.  Whatever its children do, a legacy call whose line-355 rewrite
    succeeds spawns at least one child and at most [num_retries + 1]. *)
Theorem X5_legacy_attempts_bounded (cmd : command) (kw : ORC.kwargs)
  (w : world) :
  ORC.enter_chroot kw && is_string cmd = false ->
  attempts (trace w) + 1 <= attempts (trace (fst (OldRunCommand cmd kw w))) /\
  attempts (trace (fst (OldRunCommand cmd kw w)))
  <= attempts (trace w) + (ORC.num_retries kw + 1).
Proof.
  intros Hok. split.
  - destruct (OldRunCommand_popens cmd kw w Hok) as (n & Hn & Hp).
    rewrite !attempts_popens, Hp, length_app, repeat_length. lia.
  - now apply OldRunCommand_attempts_le.
Qed.

Lemma X5_legacy_attempts_bounded_witness :
  0 + 1 <= attempts (trace (fst (OldRunCommand (CmdList ["make"])
                                   (legacy false false false 2)
                                   (fresh_world flaky)))) /\
  attempts (trace (fst (OldRunCommand (CmdList ["make"])
                          (legacy false false false 2)
                          (fresh_world flaky))))
  <= 0 + (2 + 1).
Proof.
  exact (X5_legacy_attempts_bounded (CmdList ["make"])
           (legacy false false false 2) (fresh_world flaky) eq_refl).
Defined.

(** X6.  A legacy call with [enter_chroot] set and a command given as one
    string raises [TypeError] at once: nothing is spawned, nothing is
    printed, and the world is left as it was, whatever the other options
    are. *)
Theorem X6_legacy_string_chroot (s : string) (kw : ORC.kwargs) (w : world) :
  ORC.enter_chroot kw = true ->
  OldRunCommand (CmdStr s) kw w =
    (w, Raise (TypeError ("can only concatenate list (not " ++ DQ ++ "str"
                          ++ DQ ++ ") to list")%string)).
Proof.
  intros H. unfold OldRunCommand, OldRunCommand_body, legacy_rewrite_cmd,
    bind, raise.
  rewrite H. reflexivity.
Qed.

Lemma X6_legacy_string_chroot_witness :
  OldRunCommand (CmdStr "ls -l") (legacy true true true 3)
    (fresh_world (fun _ => child_exit EmptyString EmptyString 0)) =
    (fresh_world (fun _ => child_exit EmptyString EmptyString 0),
     Raise (TypeError ("can only concatenate list (not " ++ DQ ++ "str"
                       ++ DQ ++ ") to list")%string)).
Proof.
  exact (X6_legacy_string_chroot "ls -l" (legacy true true true 3)
           (fresh_world (fun _ => child_exit EmptyString EmptyString 0))
           eq_refl).
Defined.

(** X7.  A legacy call whose first [k] children end with a non-zero exit
    code and whose next child exits with code 0, with [k] less than
    [num_retries], stops there: it has spawned [k + 1] children and
    warned [k] times, and it returns the output of that child, in
    exit-code mode too. *)
Theorem X7_legacy_early_success (cmd : command) (kw : ORC.kwargs) (w : world)
  (k : nat) (run : option string -> comm_outcome) (out err : string) :
  ORC.enter_chroot kw && is_string cmd = false ->
  k < ORC.num_retries kw ->
  (forall i, i < k ->
     fails_nonzero (children w (spawned w + i))
       (child_stdin (ORC.input kw)) = true) ->
  children w (spawned w + k) = Spawns run ->
  run (child_stdin (ORC.input kw)) = Terminates out err 0 ->
  exists w',
    OldRunCommand cmd kw w =
      (w', Ret (Output (captured (ORC.redirect_stdout kw) out))) /\
    warnings (trace w') = warnings (trace w) + k /\
    attempts (trace w') = attempts (trace w) + (k + 1).
Proof.
  intros Hok Hk Hf Hc Hr.
  destruct (OldRunCommand_success_at cmd kw w k run out err Hok
              (Nat.lt_le_incl _ _ Hk) Hf Hc Hr)
    as (w' & Hcall & _ & _ & Hw & Ha).
  assert (Hne : (k =? ORC.num_retries kw)%nat = false)
    by (apply Nat.eqb_neq; lia).
  rewrite Hne, andb_false_r in Hcall.
  exists w'. repeat split; assumption.
Qed.

Lemma X7_legacy_early_success_witness :
  exists w',
    OldRunCommand (CmdList ["make"]) (legacy false true false 5)
      (fresh_world flaky) = (w', Ret (Output (Some "done"))) /\
    warnings (trace w') = 2 /\
    attempts (trace w') = 3.
Proof.
  refine (X7_legacy_early_success (CmdList ["make"])
            (legacy false true false 5) (fresh_world flaky) 2
            (fun _ => Terminates "done" EmptyString 0) "done" EmptyString
            eq_refl _ _ eq_refl eq_refl).
  - cbn. lia.
  - intros [|[|i]] Hi; [reflexivity | reflexivity | lia].
Defined.

(** ** The two conventions side by side *)

(** X8.  For a child that exits with code 0, a legacy call without
    retries and a call of [RunCommand] with the same options (and no
    shell, no environment, no guard) hand [Popen] the same arguments, and the legacy call returns
    a field of what [RunCommand] returns: its [returncode] in exit-code
    mode, its [output] otherwise. *)
Theorem X8_conventions_agree_on_success (cmd : command) (kw : ORC.kwargs)
  (w : world) (run : option string -> comm_outcome) (out err : string) :
  ORC.enter_chroot kw && is_string cmd = false ->
  ORC.num_retries kw = 0 ->
  children w (spawned w) = Spawns run ->
  run (child_stdin (ORC.input kw)) = Terminates out err 0 ->
  exists r,
    snd (RunCommand cmd
           {| RC.print_cmd := ORC.print_cmd kw;
              RC.error_ok := ORC.error_ok kw;
              RC.error_message := ORC.error_message kw;
              RC.exit_code := ORC.exit_code kw;
              RC.redirect_stdout := ORC.redirect_stdout kw;
              RC.redirect_stderr := ORC.redirect_stderr kw;
              RC.cwd := ORC.cwd kw; RC.input := ORC.input kw;
              RC.enter_chroot := ORC.enter_chroot kw;
              RC.shell := false; RC.env := None;
              RC.ignore_sigint := false |} w) = Ret r /\
    snd (OldRunCommand cmd kw w) =
      Ret (match CommandResult.returncode r with
           | Some code => ReturnCode code
           | None => Output (CommandResult.output r)
           end) /\
    popens (trace (fst (OldRunCommand cmd kw w))) =
    popens (trace (fst (RunCommand cmd
           {| RC.print_cmd := ORC.print_cmd kw;
              RC.error_ok := ORC.error_ok kw;
              RC.error_message := ORC.error_message kw;
              RC.exit_code := ORC.exit_code kw;
              RC.redirect_stdout := ORC.redirect_stdout kw;
              RC.redirect_stderr := ORC.redirect_stderr kw;
              RC.cwd := ORC.cwd kw; RC.input := ORC.input kw;
              RC.enter_chroot := ORC.enter_chroot kw;
              RC.shell := false; RC.env := None;
              RC.ignore_sigint := false |} w))).
Proof.
  intros Hok HN Hc Hr.
  destruct (OldRunCommand_success_at cmd kw w 0 run out err Hok)
    as (w1 & Hold & _); try assumption.
  { lia. }
  { intros i Hi. lia. }
  { now rewrite Nat.add_0_r. }
  rewrite HN in Hold. cbn [Nat.eqb] in Hold. rewrite andb_true_r in Hold.
  match goal with
  | |- context [RunCommand cmd ?k w] =>
      destruct (RunCommand_terminates cmd k w run out err 0%Z Hc Hr)
        as (w2 & Hnew & _);
      pose proof (RunCommand_popens cmd k w) as Hpn
  end.
  destruct (OldRunCommand_popens cmd kw w Hok) as (n & Hn & Hpo).
  pose proof (OldRunCommand_attempts_le cmd kw w Hok) as Hub.
  rewrite !attempts_popens, Hpo, length_app, repeat_length, HN in Hub.
  assert (n = 1) by lia. subst n.
  rewrite Hnew, Hold, andb_false_r. cbn [snd RC.exit_code RC.redirect_stdout
    RC.redirect_stderr]. eexists. split; [reflexivity|]. split.
  - cbn. destruct (ORC.exit_code kw); reflexivity.
  - rewrite Hnew in Hpn. rewrite Hold in Hpo. cbn [fst] in Hpn, Hpo |- *.
    rewrite Hpn, Hpo. cbn. unfold legacy_popen_args, legacy_cmd.
    destruct (ORC.enter_chroot kw), cmd as [s|argv]; try discriminate Hok;
      reflexivity.
Qed.

Lemma X8_conventions_agree_on_success_witness :
  exists r,
    snd (RunCommand (CmdList ["echo"; "some"])
           {| RC.print_cmd := false; RC.error_ok := false;
              RC.error_message := None; RC.exit_code := false;
              RC.redirect_stdout := true; RC.redirect_stderr := true;
              RC.cwd := None; RC.input := None; RC.enter_chroot := false;
              RC.shell := false; RC.env := None;
              RC.ignore_sigint := false |}
           (fresh_world (fun _ => child_exit "some" EmptyString 0))) = Ret r /\
    snd (OldRunCommand (CmdList ["echo"; "some"]) (legacy false false false 0)
           (fresh_world (fun _ => child_exit "some" EmptyString 0))) =
      Ret (match CommandResult.returncode r with
           | Some code => ReturnCode code
           | None => Output (CommandResult.output r)
           end) /\
    popens (trace (fst (OldRunCommand (CmdList ["echo"; "some"])
                          (legacy false false false 0)
                          (fresh_world
                             (fun _ => child_exit "some" EmptyString 0))))) =
    popens (trace (fst (RunCommand (CmdList ["echo"; "some"])
           {| RC.print_cmd := false; RC.error_ok := false;
              RC.error_message := None; RC.exit_code := false;
              RC.redirect_stdout := true; RC.redirect_stderr := true;
              RC.cwd := None; RC.input := None; RC.enter_chroot := false;
              RC.shell := false; RC.env := None;
              RC.ignore_sigint := false |}
           (fresh_world (fun _ => child_exit "some" EmptyString 0))))).
Proof.
  exact (X8_conventions_agree_on_success (CmdList ["echo"; "some"])
           (legacy false false false 0)
           (fresh_world (fun _ => child_exit "some" EmptyString 0))
           (fun _ => Terminates "some" EmptyString 0) "some" EmptyString
           eq_refl eq_refl eq_refl eq_refl).
Defined.

(** * The path and version helpers *)

(** ** Strings *)

Lemma append_nil_r (s : string) : (s ++ EmptyString)%string = s.
Proof. induction s as [|c s IH]; cbn; now rewrite ?IH. Qed.

Lemma append_assoc (a b c : string) :
  ((a ++ b) ++ c)%string = (a ++ (b ++ c))%string.
Proof. induction a as [|x a IH]; cbn; now rewrite ?IH. Qed.

Lemma after_prefix_app (p s : string) :
  Re.after_prefix p (p ++ s)%string = Some s.
Proof.
  induction p as [|a p IH]; [reflexivity|]. cbn. now rewrite Ascii.eqb_refl.
Qed.

Lemma after_prefix_inv (p s rest : string) :
  Re.after_prefix p s = Some rest -> s = (p ++ rest)%string.
Proof.
  revert s. induction p as [|a p IH]; intros s H; cbn in H.
  - now injection H as ->.
  - destruct s as [|b s]; [discriminate|].
    destruct (Ascii.eqb a b) eqn:E; [|discriminate].
    apply Ascii.eqb_eq in E as ->. cbn. f_equal. now apply IH.
Qed.

Lemma version_run_split (s : string) :
  exists post,
    s = (Re.version_run s ++ post)%string /\
    Re.version_run (Re.version_run s) = Re.version_run s.
Proof.
  induction s as [|c s (post & Hs & Hv)].
  - exists EmptyString. split; reflexivity.
  - cbn. destruct (Re.is_version_char c) eqn:E.
    + exists post. cbn. rewrite E, Hv. split; [now rewrite <- Hs | reflexivity].
    + exists (String c s). split; reflexivity.
Qed.

Lemma version_run_app (v post : string) :
  Re.version_run v = v ->
  Re.version_run post = EmptyString ->
  Re.version_run (v ++ post) = v.
Proof.
  intros Hv Hp. induction v as [|c v IH]; [exact Hp|].
  cbn in Hv |- *. destruct (Re.is_version_char c); [|discriminate].
  injection Hv as Hv. now rewrite IH.
Qed.

(** ** [GetChromeosVersion] *)

Lemma search_version_sound (s v : string) :
  Re.search_version s = Some v ->
  v <> EmptyString /\
  Re.version_run v = v /\
  exists pre post,
    s = (pre ++ Re.VERSION_KEY ++ v ++ post)%string.
Proof.
  induction s as [|c s IH].
  - cbn. discriminate.
  - intros H. cbn [Re.search_version] in H.
    destruct (Re.after_prefix Re.VERSION_KEY (String c s)) as [rest|] eqn:Ep.
    + destruct (Re.version_run rest) as [|a r] eqn:Er.
      * destruct (IH H) as (Hn & Hv & pre & post & Hs).
        repeat split; trivial. exists (String c pre), post. cbn. now rewrite Hs.
      * injection H as <-.
        destruct (version_run_split rest) as (post & Hs & Hv).
        rewrite Er in Hs, Hv. repeat split; [discriminate | exact Hv |].
        exists EmptyString, post. cbn [append].
        rewrite (after_prefix_inv _ _ _ Ep). now rewrite Hs at 1.
    + destruct (IH H) as (Hn & Hv & pre & post & Hs).
      repeat split; trivial. exists (String c pre), post. cbn. now rewrite Hs.
Qed.

Lemma search_version_complete (pre rest : string) (c : ascii) :
  Re.is_version_char c = true ->
  Re.search_version (pre ++ Re.VERSION_KEY ++ String c rest) <> None.
Proof.
  intros Hc. induction pre as [|a pre IH].
  - cbn [append]. destruct (Re.VERSION_KEY ++ String c rest)%string eqn:E;
      [discriminate E|].
    cbn [Re.search_version]. rewrite <- E, after_prefix_app. cbn.
    rewrite Hc. discriminate.
  - cbn [append Re.search_version].
    destruct (Re.after_prefix _ _) as [r|]; [|exact IH].
    destruct (Re.version_run r); [exact IH | discriminate].
Qed.

Lemma search_version_skip (pre s : string) :
  Repr.mem "C"%char pre = false ->
  Re.search_version (pre ++ s) = Re.search_version s.
Proof.
  intros H. induction pre as [|a pre IH]; [reflexivity|].
  change (Repr.mem "C" (String a pre))
    with (if Ascii.eqb "C" a then true else Repr.mem "C" pre) in H.
  destruct (Ascii.eqb "C" a) eqn:E; [discriminate|].
  cbn [append Re.search_version]. unfold Re.VERSION_KEY at 1.
  cbn [Re.after_prefix]. rewrite E. now apply IH.
Qed.

(** X9.  Whatever [GetChromeosVersion] returns other than [None] is not
    empty, is made of digits, underscores and dots only, and stands in
    the text right after [CHROMEOS_VERSION_STRING=].  The call prints
    exactly one message, raises nothing and changes nothing else. *)
Theorem X9_GetChromeosVersion_sound (str_obj : option string) (w : world) :
  exists r text,
    GetChromeosVersion (L := unit) str_obj (w, tt) =
      (log (EvInfo (Color.Color (_STDOUT_IS_TTY w) Color.BLUE
                      (NL ++ "INFO: " ++ text)%string)) w, tt, Ret r) /\
    forall v,
      r = Some v ->
      v <> EmptyString /\
      Re.version_run v = v /\
      exists s pre post,
        str_obj = Some s /\
        s = (pre ++ "CHROMEOS_VERSION_STRING=" ++ v ++ post)%string.
Proof.
  unfold GetChromeosVersion, Info, bind, ret, get_world, modify_world.
  destruct str_obj as [s|]; cbn.
  - destruct (Re.search_version s) as [v|] eqn:E; cbn.
    + eexists; eexists; split; [reflexivity|].
      intros v' Hv. injection Hv as <-.
      destruct (search_version_sound s v E) as (Hn & Hv & pre & post & Hs).
      repeat split; trivial. now exists s, pre, post.
    + eexists; eexists; split; [reflexivity|]. discriminate.
  - eexists; eexists; split; [reflexivity|]. discriminate.
Qed.

Lemma X9_GetChromeosVersion_sound_witness :
  exists r text,
    GetChromeosVersion (L := unit)
      (Some "export CHROMEOS_VERSION_STRING=0.12_3-rc")
      (fresh_world (fun _ => child_cat), tt) =
      (log (EvInfo (Color.Color
                      (_STDOUT_IS_TTY (fresh_world (fun _ => child_cat)))
                      Color.BLUE (NL ++ "INFO: " ++ text)%string))
         (fresh_world (fun _ => child_cat)), tt, Ret r) /\
    forall v,
      r = Some v ->
      v <> EmptyString /\
      Re.version_run v = v /\
      exists s pre post,
        Some "export CHROMEOS_VERSION_STRING=0.12_3-rc" = Some s /\
        s = (pre ++ "CHROMEOS_VERSION_STRING=" ++ v ++ post)%string.
Proof.
  exact (X9_GetChromeosVersion_sound
           (Some "export CHROMEOS_VERSION_STRING=0.12_3-rc")
           (fresh_world (fun _ => child_cat))).
Defined.

(** X10.  [GetChromeosVersion] finds a version that stands in the text:
    when the key [CHROMEOS_VERSION_STRING=] is followed by a digit, an
    underscore or a dot somewhere in the text, the result is not [None];
    and when no [C] comes before the key, the result is exactly the run
    of such characters that follows it. *)
Theorem X10_GetChromeosVersion_finds (pre v post : string) (w : world) :
  v <> EmptyString ->
  Re.version_run v = v ->
  (snd (GetChromeosVersion (L := unit)
          (Some (pre ++ "CHROMEOS_VERSION_STRING=" ++ v ++ post)%string)
          (w, tt)) <> Ret None) /\
  (Repr.mem "C"%char pre = false ->
   Re.version_run post = EmptyString ->
   snd (GetChromeosVersion (L := unit)
          (Some (pre ++ "CHROMEOS_VERSION_STRING=" ++ v ++ post)%string)
          (w, tt)) = Ret (Some v)).
Proof.
  intros Hn Hv.
  unfold GetChromeosVersion, Info, bind, ret, get_world, modify_world.
  split.
  - destruct v as [|c v]; [congruence|].
    pose proof (search_version_complete pre (v ++ post) c) as Hc.
    cbn in Hv. destruct (Re.is_version_char c) eqn:Ec; [|discriminate].
    specialize (Hc eq_refl). change (String c v ++ post)%string
      with (String c (v ++ post)).
    destruct (Re.search_version _); [cbn; discriminate | congruence].
  - intros Hpre Hpost.
    rewrite (search_version_skip pre _ Hpre).
    assert (E : Re.search_version
                  ("CHROMEOS_VERSION_STRING=" ++ v ++ post) = Some v).
    { change ("CHROMEOS_VERSION_STRING=" ++ v ++ post)%string
        with (String "C" ("HROMEOS_VERSION_STRING=" ++ v ++ post)).
      cbn [Re.search_version].
      change (String "C" ("HROMEOS_VERSION_STRING=" ++ v ++ post))
        with (Re.VERSION_KEY ++ (v ++ post))%string.
      rewrite after_prefix_app, (version_run_app v post Hv Hpost).
      destruct v; [congruence | reflexivity]. }
    rewrite E. reflexivity.
Qed.

Lemma X10_GetChromeosVersion_finds_witness :
  (snd (GetChromeosVersion (L := unit)
          (Some ("export " ++ "CHROMEOS_VERSION_STRING=" ++ "0.12_3"
                 ++ "-rc")%string)
          (fresh_world (fun _ => child_cat), tt)) <> Ret None) /\
  (Repr.mem "C"%char "export " = false ->
   Re.version_run "-rc" = EmptyString ->
   snd (GetChromeosVersion (L := unit)
          (Some ("export " ++ "CHROMEOS_VERSION_STRING=" ++ "0.12_3"
                 ++ "-rc")%string)
          (fresh_world (fun _ => child_cat), tt)) = Ret (Some "0.12_3")).
Proof.
  refine (X10_GetChromeosVersion_finds "export " "0.12_3" "-rc"
            (fresh_world (fun _ => child_cat)) _ eq_refl).
  discriminate.
Defined.

(** ** Prefixes and pieces *)

Lemma length_append (a b : string) :
  String.length (a ++ b) = String.length a + String.length b.
Proof. induction a as [|c a IH]; cbn; now rewrite ?IH. Qed.

Lemma prefix_inv (p s : string) :
  String.prefix p s = true -> exists r, s = (p ++ r)%string.
Proof.
  revert s. induction p as [|a p IH]; intros s H.
  - exists s. reflexivity.
  - destruct s as [|b s]; [discriminate|]. cbn in H.
    destruct (ascii_dec a b) as [->|]; [|discriminate].
    destruct (IH s H) as (r & ->). now exists r.
Qed.

Lemma prefix_app (p r : string) : String.prefix p (p ++ r) = true.
Proof.
  induction p as [|a p IH]; [now destruct r|]. cbn.
  destruct (ascii_dec a a); [exact IH | congruence].
Qed.

Lemma prefix_app_long (p a b : string) :
  String.length p <= String.length a ->
  String.prefix p (a ++ b) = String.prefix p a.
Proof.
  revert a. induction p as [|x p IH]; intros a H.
  - now destruct a, b.
  - destruct a as [|y a]; [cbn in H; lia|]. cbn in H |- *.
    destruct (ascii_dec x y); [apply IH; lia | reflexivity].
Qed.

Lemma split_from_not_nil (pat s : string) :
  forall (skip : nat) (piece : string), Re.split_from pat skip piece s <> [].
Proof.
  induction s as [|c s IH]; intros skip piece; cbn [Re.split_from].
  - discriminate.
  - destruct skip; [|apply IH].
    destruct (String.prefix pat (String c s)); [discriminate | apply IH].
Qed.

(** The first piece is what stands before the first cut, or the whole
    text when there is no cut. *)
Lemma split_from_first (pat s : string) :
  forall piece : string,
  exists x tail,
    Re.split_from pat 0 piece s = (piece ++ x)%string :: tail /\
    (s = x \/ exists rest, s = (x ++ pat ++ rest)%string).
Proof.
  induction s as [|c s IH]; intros piece.
  - exists EmptyString, []. cbn. rewrite append_nil_r. split; [reflexivity|].
    now left.
  - cbn [Re.split_from].
    destruct (String.prefix pat (String c s)) eqn:E.
    + destruct (prefix_inv _ _ E) as (rest & Hs).
      exists EmptyString. eexists. rewrite append_nil_r.
      split; [reflexivity|]. right. now exists rest.
    + destruct (IH (piece ++ String c EmptyString)%string)
        as (x & tail & Hsp & Hx).
      exists (String c x), tail. split.
      * rewrite Hsp, append_assoc. reflexivity.
      * destruct Hx as [->|(rest & ->)]; [now left|].
        right. now exists rest.
Qed.

(** The cut is at the first occurrence of the separator. *)
Lemma split_from_at_first (pre rest : string) :
  forall piece : string,
    occurs "/src/scripts/" (pre ++ "/src/scripts") = false ->
    exists tail,
      Re.split_from "/src/scripts/" 0 piece
        (pre ++ "/src/scripts/" ++ rest) = (piece ++ pre)%string :: tail.
Proof.
  induction pre as [|c pre IH]; intros piece H.
  - eexists.
    change (EmptyString ++ "/src/scripts/" ++ rest)%string
      with (String "/" ("src/scripts/" ++ rest)).
    cbn [Re.split_from].
    change (String "/" ("src/scripts/" ++ rest))
      with ("/src/scripts/" ++ rest)%string.
    rewrite prefix_app, append_nil_r. reflexivity.
  - cbn [append occurs] in H. apply orb_false_iff in H as (Hp & Ho).
    change (String c pre ++ "/src/scripts/" ++ rest)%string
      with (String c (pre ++ "/src/scripts/" ++ rest)).
    cbn [Re.split_from].
    assert (E : String.prefix "/src/scripts/"
                  (String c (pre ++ "/src/scripts/" ++ rest)) = false).
    { etransitivity; [|exact Hp].
      change (String c (pre ++ "/src/scripts/" ++ rest))
        with (String c pre ++ ("/src/scripts" ++ "/" ++ rest))%string.
      rewrite <- append_assoc.
      change (String c (pre ++ "/src/scripts"))
        with (String c pre ++ "/src/scripts")%string.
      apply prefix_app_long. rewrite length_append. cbn. lia. }
    rewrite E.
    destruct (IH (piece ++ String c EmptyString)%string Ho) as (tail & Ht).
    exists tail. rewrite Ht, append_assoc. reflexivity.
Qed.

(** Without the separator there is one piece, the whole text. *)
Lemma split_from_absent (pat s : string) :
  forall piece : string,
    occurs pat s = false ->
    Re.split_from pat 0 piece s = [(piece ++ s)%string].
Proof.
  induction s as [|c s IH]; intros piece H.
  - cbn [Re.split_from]. now rewrite append_nil_r.
  - cbn [occurs] in H. apply orb_false_iff in H as (Hp & Ho).
    cbn [Re.split_from]. rewrite Hp, (IH _ Ho), append_assoc. reflexivity.
Qed.

(** A text either does not hold the separator, or holds a first one. *)
Lemma first_occurrence (s : string) :
  occurs "/src/scripts/" s = false \/
  exists pre rest,
    s = (pre ++ "/src/scripts/" ++ rest)%string /\
    occurs "/src/scripts/" (pre ++ "/src/scripts") = false.
Proof.
  induction s as [|c s IH]; [now left|].
  destruct (String.prefix "/src/scripts/" (String c s)) eqn:Ep.
  - right. apply prefix_inv in Ep as (rest & Hr).
    exists EmptyString, rest. split; [exact Hr | reflexivity].
  - destruct IH as [Ho | (pre & rest & Hs & Ho)].
    + left. cbn [occurs]. rewrite Ep, Ho. reflexivity.
    + right. exists (String c pre), rest. subst s. split; [reflexivity|].
      change (String c pre ++ "/src/scripts")%string
        with (String c (pre ++ "/src/scripts")).
      cbn [occurs]. rewrite Ho, orb_false_r.
      etransitivity; [|exact Ep]. symmetry.
      change (String c (pre ++ "/src/scripts/" ++ rest))
        with (String c pre ++ ("/src/scripts" ++ "/" ++ rest))%string.
      rewrite <- append_assoc.
      change (String c (pre ++ "/src/scripts"))
        with (String c pre ++ "/src/scripts")%string.
      apply prefix_app_long. rewrite length_append. cbn. lia.
Qed.

(** ** [os.path] *)

Lemma has_slash_app (a b : string) :
  Posix.has_slash (a ++ b) = Posix.has_slash a || Posix.has_slash b.
Proof.
  induction a as [|c a IH]; [reflexivity|]. cbn. now rewrite IH, orb_assoc.
Qed.

Lemma all_slashes_app (a b : string) :
  Posix.all_slashes (a ++ b) = Posix.all_slashes a && Posix.all_slashes b.
Proof.
  induction a as [|c a IH]; [reflexivity|]. cbn. now rewrite IH, andb_assoc.
Qed.

Lemma upto_last_slash_none (s : string) :
  Posix.has_slash s = false -> Posix.upto_last_slash s = EmptyString.
Proof.
  destruct s as [|c s]; [reflexivity|]. intros H.
  cbn [Posix.upto_last_slash]. now rewrite H.
Qed.

Lemma upto_last_slash_app (a b : string) :
  Posix.has_slash b = false ->
  Posix.upto_last_slash (a ++ "/" ++ b) = (a ++ "/")%string.
Proof.
  intros H. induction a as [|c a IH].
  - cbn. now rewrite (upto_last_slash_none b H).
  - assert (Hs : Posix.has_slash (String c a ++ "/" ++ b) = true).
    { rewrite has_slash_app. cbn. apply orb_true_r. }
    change (String c a ++ "/" ++ b)%string
      with (String c (a ++ "/" ++ b)) in Hs |- *.
    cbn [Posix.upto_last_slash]. rewrite Hs, IH. reflexivity.
Qed.

Lemma rstrip_app (a b : string) :
  Posix.rstrip b <> EmptyString ->
  Posix.rstrip (a ++ b) = (a ++ Posix.rstrip b)%string.
Proof.
  intros H. induction a as [|c a IH]; [reflexivity|].
  cbn [append Posix.rstrip]. rewrite IH.
  destruct (a ++ Posix.rstrip b)%string eqn:E; [|reflexivity].
  destruct a; [cbn in E; congruence | discriminate E].
Qed.

Lemma ends_with_slash_app (a b : string) :
  b <> EmptyString ->
  Posix.ends_with_slash (a ++ b) = Posix.ends_with_slash b.
Proof.
  intros H. induction a as [|c a IH]; [reflexivity|].
  cbn [append Posix.ends_with_slash]. rewrite IH.
  destruct (a ++ b)%string eqn:E; [|reflexivity].
  destruct a; [cbn in E; congruence | discriminate E].
Qed.

(** The directory above [X/src/scripts] is [X/src]. *)
Lemma dirname_src_scripts (pre : string) :
  Posix.dirname (pre ++ "/src/scripts") = (pre ++ "/src")%string.
Proof.
  unfold Posix.dirname.
  change (pre ++ "/src/scripts")%string
    with (pre ++ ("/src" ++ "/" ++ "scripts"))%string.
  rewrite <- append_assoc, upto_last_slash_app by reflexivity.
  destruct ((pre ++ "/src") ++ "/")%string eqn:E.
  - destruct pre; discriminate E.
  - rewrite <- E, all_slashes_app, all_slashes_app.
    replace (Posix.all_slashes "/src") with false by reflexivity.
    rewrite andb_false_r. cbn [andb].
    rewrite append_assoc, rstrip_app by (cbn; discriminate).
    reflexivity.
Qed.

Lemma join_relative (a b : string) :
  a <> EmptyString ->
  Posix.ends_with_slash a = false ->
  Posix.starts_with_slash b = false ->
  Posix.join a b = (a ++ "/" ++ b)%string.
Proof.
  intros Ha He Hb. unfold Posix.join. rewrite Hb, He.
  destruct a; [congruence | reflexivity].
Qed.

Lemma join_absolute (a b : string) :
  Posix.starts_with_slash b = true -> Posix.join a b = b.
Proof. intros H. unfold Posix.join. now rewrite H. Qed.

(** ** [GetSrcRoot] *)

(** X11.  [GetSrcRoot] never returns [None], whatever the directory it
    is called from, and it never prints that the marker was not found:
    it returns the text before the first [/src/scripts/] of that
    directory, joined with [src/scripts], and when the directory holds no
    [/src/scripts/] it returns the whole directory joined with
    [src/scripts].  It prints one message and raises nothing. *)
Theorem X11_GetSrcRoot_never_None (here : string) (w : world) :
  exists first,
    GetSrcRoot (L := unit) here (w, tt) =
      (log (EvInfo (Color.Color (_STDOUT_IS_TTY w) Color.BLUE
                      (NL ++ "INFO: " ++ "src_root = "
                       ++ Repr.repr_str (Posix.join first "src/scripts"))%string))
         w, tt,
       Ret (Some (Posix.join first "src/scripts"))) /\
    ((occurs "/src/scripts/" here = false /\ first = here) \/
     (exists rest,
         here = (first ++ "/src/scripts/" ++ rest)%string /\
         occurs "/src/scripts/" (first ++ "/src/scripts") = false)).
Proof.
  destruct (first_occurrence here) as [Ho | (pre & rest & Hs & Ho)].
  - exists here. unfold GetSrcRoot, Re.split.
    rewrite (split_from_absent _ _ EmptyString Ho). cbn [append].
    split; [reflexivity | left; now split].
  - exists pre. subst here. unfold GetSrcRoot, Re.split.
    destruct (split_from_at_first pre rest EmptyString Ho) as (tail & Hsp).
    rewrite Hsp. cbn [append].
    split; [reflexivity | right; exists rest; now split].
Qed.

(** X12.  From a directory [pre/src/scripts/...] whose first
    [/src/scripts/] is the one after [pre], [GetSrcRoot] returns [pre]
    joined with [src/scripts]; for a directory right under the root's
    [/src/scripts/], where [pre] is empty, that is the relative path
    [src/scripts]. *)
Theorem X12_GetSrcRoot_inside_tree (pre rest : string) (w : world) :
  occurs "/src/scripts/" (pre ++ "/src/scripts") = false ->
  snd (GetSrcRoot (L := unit) (pre ++ "/src/scripts/" ++ rest) (w, tt)) =
    Ret (Some (Posix.join pre "src/scripts")) /\
  (pre = EmptyString ->
   snd (GetSrcRoot (L := unit) (pre ++ "/src/scripts/" ++ rest) (w, tt)) =
     Ret (Some "src/scripts")).
Proof.
  intros H.
  assert (E : snd (GetSrcRoot (L := unit) (pre ++ "/src/scripts/" ++ rest)
                     (w, tt)) = Ret (Some (Posix.join pre "src/scripts"))).
  { unfold GetSrcRoot, Re.split.
    destruct (split_from_at_first pre rest EmptyString H) as (tail & Hsp).
    rewrite Hsp. reflexivity. }
  split; [exact E|]. intros Hpre. rewrite E, Hpre. reflexivity.
Qed.

Lemma X12_GetSrcRoot_inside_tree_witness :
  snd (GetSrcRoot (L := unit) ("/home/u/trunk" ++ "/src/scripts/" ++ "bin")
         (fresh_world (fun _ => child_cat), tt)) =
    Ret (Some "/home/u/trunk/src/scripts") /\
  ("/home/u/trunk" = EmptyString ->
   snd (GetSrcRoot (L := unit) ("/home/u/trunk" ++ "/src/scripts/" ++ "bin")
          (fresh_world (fun _ => child_cat), tt)) =
     Ret (Some "src/scripts")).
Proof.
  exact (X12_GetSrcRoot_inside_tree "/home/u/trunk" "bin"
           (fresh_world (fun _ => child_cat)) eq_refl).
Defined.

(** ** [GetOutputImageDir] *)

Lemma GetOutputImageDir_unfold (attribute_error : exn)
  (here board cros_version : string) (w : world) :
  exists first w',
    GetOutputImageDir attribute_error (L := unit) here board cros_version
      (w, tt) =
      (w', tt,
       Ret (Posix.join
              (Posix.join (Posix.dirname (Posix.join first "src/scripts"))
                 ("build/images/" ++ board))
              (cros_version ++ "-a1"))) /\
    hd EmptyString (Re.split "/src/scripts/" here) = first /\
    length (trace w') = length (trace w) + 2.
Proof.
  unfold GetOutputImageDir, GetSrcRoot, dirname_opt, Re.split.
  destruct (split_from_first "/src/scripts/" here EmptyString)
    as (x & tail & Hsp & _).
  rewrite Hsp. cbn [append]. exists x. eexists.
  unfold Info, bind, ret, get_world, modify_world. cbn.
  split; [reflexivity|]. split; [reflexivity|].
  cbn. rewrite !length_app. cbn. lia.
Qed.

(** X13.  From a directory [pre/src/scripts/...] (first occurrence, [pre]
    not empty and not ending in a slash), for a board name that is not
    empty and does not end in a slash and a version that does not start
    with one, [GetOutputImageDir] returns
    [pre/src/build/images/<board>/<version>-a1], prints two messages and
    raises nothing. *)
Theorem X13_GetOutputImageDir_path (attribute_error : exn)
  (pre rest board cros_version : string) (w : world) :
  occurs "/src/scripts/" (pre ++ "/src/scripts") = false ->
  pre <> EmptyString ->
  Posix.ends_with_slash pre = false ->
  board <> EmptyString ->
  Posix.ends_with_slash board = false ->
  Posix.starts_with_slash cros_version = false ->
  exists w',
    GetOutputImageDir attribute_error (L := unit)
      (pre ++ "/src/scripts/" ++ rest) board cros_version (w, tt) =
      (w', tt,
       Ret (pre ++ "/src/build/images/" ++ board ++ "/" ++ cros_version
            ++ "-a1")%string) /\
    length (trace w') = length (trace w) + 2.
Proof.
  intros Hocc Hpre Hpe Hb Hbe Hv.
  destruct (GetOutputImageDir_unfold attribute_error
              (pre ++ "/src/scripts/" ++ rest) board cros_version w)
    as (first & w' & Hcall & Hfirst & Hlen).
  exists w'. split; [|exact Hlen]. rewrite Hcall. do 2 f_equal.
  unfold Re.split in Hfirst.
  destruct (split_from_at_first pre rest EmptyString Hocc) as (tail & Hsp).
  rewrite Hsp in Hfirst. cbn in Hfirst. subst first.
  rewrite (join_relative pre "src/scripts" Hpre Hpe eq_refl).
  change (pre ++ "/" ++ "src/scripts")%string with (pre ++ "/src/scripts")%string.
  rewrite dirname_src_scripts.
  rewrite (join_relative (pre ++ "/src") ("build/images/" ++ board)).
  - rewrite join_relative.
    + rewrite !append_assoc. reflexivity.
    + destruct pre; [congruence | discriminate].
    + rewrite <- !append_assoc. now rewrite ends_with_slash_app.
    + destruct cros_version; [reflexivity | exact Hv].
  - destruct pre; [congruence | discriminate].
  - now rewrite ends_with_slash_app by discriminate.
  - reflexivity.
Qed.

Lemma X13_GetOutputImageDir_path_witness :
  exists w',
    GetOutputImageDir KeyboardInterrupt (L := unit)
      ("/home/u/trunk" ++ "/src/scripts/" ++ "bin") "x86-generic" "0.9.1"
      (fresh_world (fun _ => child_cat), tt) =
      (w', tt,
       Ret ("/home/u/trunk" ++ "/src/build/images/" ++ "x86-generic" ++ "/"
            ++ "0.9.1" ++ "-a1")%string) /\
    length (trace w') = 0 + 2.
Proof.
  refine (X13_GetOutputImageDir_path KeyboardInterrupt "/home/u/trunk" "bin"
            "x86-generic" "0.9.1" (fresh_world (fun _ => child_cat))
            eq_refl _ eq_refl _ eq_refl eq_refl); discriminate.
Defined.

(** X14.  A version that starts with a slash takes everything else out
    of the result of [GetOutputImageDir]: whatever the directory and the
    board, the result is the version followed by [-a1]. *)
Theorem X14_GetOutputImageDir_absolute_version (attribute_error : exn)
  (here board cros_version : string) (w : world) :
  Posix.starts_with_slash cros_version = true ->
  snd (GetOutputImageDir attribute_error (L := unit) here board cros_version
         (w, tt)) = Ret (cros_version ++ "-a1")%string.
Proof.
  intros Hv.
  destruct (GetOutputImageDir_unfold attribute_error here board
              cros_version w) as (first & w' & Hcall & _).
  rewrite Hcall. cbn [snd]. f_equal. apply join_absolute.
  destruct cros_version; [discriminate | exact Hv].
Qed.

Lemma X14_GetOutputImageDir_absolute_version_witness :
  snd (GetOutputImageDir KeyboardInterrupt (L := unit)
         "/home/u/trunk/src/scripts/bin" "x86-generic" "/0.9.1"
         (fresh_world (fun _ => child_cat), tt)) = Ret ("/0.9.1" ++ "-a1")%string.
Proof.
  exact (X14_GetOutputImageDir_absolute_version KeyboardInterrupt
           "/home/u/trunk/src/scripts/bin" "x86-generic" "/0.9.1"
           (fresh_world (fun _ => child_cat)) eq_refl).
Defined.

(** ** [os.path.dirname] goes up *)

Lemma upto_last_slash_prefix (p : string) :
  exists t, p = (Posix.upto_last_slash p ++ t)%string.
Proof.
  induction p as [|c p (t & Ht)].
  - exists EmptyString. reflexivity.
  - cbn [Posix.upto_last_slash].
    destruct (Posix.has_slash (String c p)).
    + exists t. cbn. now rewrite <- Ht.
    + exists (String c p). reflexivity.
Qed.

Lemma upto_last_slash_ends (p : string) :
  Posix.upto_last_slash p <> EmptyString ->
  Posix.ends_with_slash (Posix.upto_last_slash p) = true.
Proof.
  induction p as [|c p IH]; [cbn; congruence|].
  cbn [Posix.upto_last_slash].
  destruct (Posix.has_slash (String c p)) eqn:Hs; [|congruence].
  intros _. cbn [Posix.ends_with_slash].
  destruct (Posix.upto_last_slash p) eqn:E.
  - destruct p as [|d p].
    + cbn in Hs. now rewrite orb_false_r in Hs.
    + cbn [Posix.upto_last_slash] in E.
      destruct (Posix.has_slash (String d p)) eqn:Hd; [discriminate E|].
      cbn [Posix.has_slash] in Hs, Hd.
      cbn [Posix.has_slash]. rewrite Hd, orb_false_r in Hs. exact Hs.
  - apply IH. discriminate.
Qed.

Lemma rstrip_prefix (s : string) :
  exists t, s = (Posix.rstrip s ++ t)%string.
Proof.
  induction s as [|c s (t & Ht)].
  - exists EmptyString. reflexivity.
  - cbn [Posix.rstrip]. destruct (Posix.rstrip s) eqn:E.
    + destruct (Ascii.eqb c Posix.SLASH).
      * exists (String c s). reflexivity.
      * exists s. reflexivity.
    + exists t. cbn. now rewrite Ht at 1.
Qed.

Lemma rstrip_not_empty (s : string) :
  Posix.all_slashes s = false -> Posix.rstrip s <> EmptyString.
Proof.
  induction s as [|c s IH]; [discriminate|].
  cbn [Posix.all_slashes Posix.rstrip]. intros H.
  destruct (Posix.rstrip s) eqn:E; [|discriminate].
  destruct (Ascii.eqb c Posix.SLASH); [|discriminate].
  cbn in H. specialize (IH H). congruence.
Qed.

Lemma rstrip_shorter (s : string) :
  Posix.ends_with_slash s = true ->
  String.length (Posix.rstrip s) < String.length s.
Proof.
  induction s as [|c s IH]; [discriminate|].
  cbn [Posix.ends_with_slash Posix.rstrip String.length].
  destruct s as [|d s].
  - intros ->. cbn. lia.
  - intros H. specialize (IH H).
    destruct (Posix.rstrip (String d s)) eqn:E.
    + destruct (Ascii.eqb c Posix.SLASH); cbn; lia.
    + cbn [String.length] in IH |- *. lia.
Qed.

Lemma dirname_prefix (p : string) :
  exists t, p = (Posix.dirname p ++ t)%string.
Proof.
  unfold Posix.dirname.
  destruct (upto_last_slash_prefix p) as (t & Ht).
  destruct (Posix.upto_last_slash p) as [|c h] eqn:E.
  - exists p. reflexivity.
  - destruct (Posix.all_slashes (String c h)); [now exists t|].
    destruct (rstrip_prefix (String c h)) as (u & Hu).
    exists (u ++ t)%string. rewrite <- append_assoc, <- Hu. exact Ht.
Qed.

(** A path that is not made of slashes only gets shorter. *)
Lemma dirname_shorter (p : string) :
  Posix.all_slashes p = false ->
  String.length (Posix.dirname p) < String.length p.
Proof.
  intros Hp. unfold Posix.dirname.
  destruct (upto_last_slash_prefix p) as (t & Ht).
  pose proof (upto_last_slash_ends p) as He.
  destruct (Posix.upto_last_slash p) as [|c h] eqn:E.
  - destruct p; [discriminate Hp | cbn; lia].
  - apply (f_equal String.length) in Ht as Hl. rewrite length_append in Hl.
    destruct (Posix.all_slashes (String c h)) eqn:Ha.
    + destruct t as [|x t].
      * rewrite append_nil_r in Ht. congruence.
      * cbn [String.length] in Hl |- *. lia.
    + specialize (He ltac:(discriminate)).
      pose proof (rstrip_shorter _ He). lia.
Qed.

(** A path with one slash in front keeps it on the way up. *)
Lemma dirname_single_slash (q : string) :
  Posix.starts_with_slash q = false ->
  exists q',
    Posix.dirname (String "/" q) = String "/" q' /\
    Posix.starts_with_slash q' = false.
Proof.
  intros Hq.
  destruct (dirname_prefix (String "/" q)) as (t & Ht).
  assert (Hne : Posix.dirname (String "/" q) <> EmptyString).
  { unfold Posix.dirname. cbn [Posix.upto_last_slash Posix.has_slash].
    replace (Ascii.eqb "/" Posix.SLASH) with true by reflexivity.
    cbn [orb].
    destruct (Posix.all_slashes (String "/" (Posix.upto_last_slash q))) eqn:E;
      [discriminate|].
    now apply rstrip_not_empty. }
  destruct (Posix.dirname (String "/" q)) as [|c d]; [congruence|].
  cbn in Ht. injection Ht as <- Hq'. exists d. split; [reflexivity|].
  destruct d as [|x d]; [reflexivity|].
  rewrite Hq' in Hq. exact Hq.
Qed.

Lemma single_slash_not_all (q : string) :
  Posix.starts_with_slash q = false ->
  q <> EmptyString ->
  Posix.all_slashes (String "/" q) = false.
Proof.
  intros Hq Hn. destruct q as [|c q]; [congruence|].
  cbn in Hq |- *. now rewrite Hq.
Qed.

(** A path with two slashes in front keeps them on the way up. *)
Lemma dirname_double_slash (q : string) :
  exists q',
    Posix.dirname (String "/" (String "/" q)) = String "/" (String "/" q').
Proof.
  unfold Posix.dirname. cbn [Posix.upto_last_slash Posix.has_slash].
  replace (Ascii.eqb "/" Posix.SLASH) with true by reflexivity. cbn [orb].
  destruct (Posix.all_slashes
              (String "/" (String "/" (Posix.upto_last_slash q)))) eqn:E.
  - now exists (Posix.upto_last_slash q).
  - exists (Posix.rstrip (Posix.upto_last_slash q)).
    change (String "/" (String "/" (Posix.upto_last_slash q)))
      with ("//" ++ Posix.upto_last_slash q)%string.
    rewrite rstrip_app; [reflexivity|].
    apply rstrip_not_empty. exact E.
Qed.

(** ** [FindRepoDir] *)

Lemma FindRepoDir_loop_ends (fs : filesystem) (fuel : nat) :
  forall q : string,
    Posix.starts_with_slash q = false ->
    String.length (String "/" q) <= fuel ->
    FindRepoDir_loop fs fuel (String "/" q) <> None.
Proof.
  induction fuel as [|fuel IH]; intros q Hq Hl.
  - cbn in Hl. lia.
  - cbn [FindRepoDir_loop].
    destruct (String.eqb (String "/" q) "/") eqn:E; [discriminate|].
    destruct (isdir fs _); [discriminate|].
    apply String.eqb_neq in E.
    assert (Hn : q <> EmptyString) by (intros ->; congruence).
    pose proof (dirname_shorter _ (single_slash_not_all q Hq Hn)) as Hs.
    destruct (dirname_single_slash q Hq) as (q' & Hd & Hq').
    rewrite Hd in Hs |- *. apply IH; [exact Hq' | lia].
Qed.

Lemma FindRepoDir_loop_nearest (fs : filesystem) (fuel : nat) :
  forall (path d : string),
    FindRepoDir_loop fs fuel path = Some (Some d) ->
    exists k,
      d = Posix.join (Nat.iter k Posix.dirname path) ".repo" /\
      isdir fs d = true /\
      Nat.iter k Posix.dirname path <> "/"%string /\
      forall j, j < k ->
        isdir fs (Posix.join (Nat.iter j Posix.dirname path) ".repo") = false.
Proof.
  induction fuel as [|fuel IH]; intros path d H; [discriminate|].
  cbn [FindRepoDir_loop] in H.
  destruct (String.eqb path "/") eqn:E; [discriminate|].
  apply String.eqb_neq in E.
  destruct (isdir fs (Posix.join path ".repo")) eqn:Hd.
  - injection H as <-. exists 0. cbn. repeat split; trivial.
    intros j Hj. lia.
  - destruct (IH _ _ H) as (k & Hk & Hk1 & Hk2 & Hk3).
    exists (S k). rewrite Nat.iter_succ_r. repeat split; trivial.
    intros [|j] Hj; [exact Hd|].
    rewrite Nat.iter_succ_r. apply Hk3. lia.
Qed.

Lemma FindRepoDir_loop_double_slash (fs : filesystem) (fuel : nat) :
  forall q : string,
    (forall a, isdir fs (Posix.join a ".repo") = false) ->
    FindRepoDir_loop fs fuel (String "/" (String "/" q)) = None.
Proof.
  induction fuel as [|fuel IH]; intros q H; [reflexivity|].
  cbn [FindRepoDir_loop].
  replace (String.eqb (String "/" (String "/" q)) "/") with false
    by (symmetry; apply String.eqb_neq; discriminate).
  rewrite H. destruct (dirname_double_slash q) as (q' & ->).
  now apply IH.
Qed.

(** ** [os.path.normpath] and [os.path.abspath] *)

Lemma split_from_no_slash (s : string) :
  forall piece c,
    Posix.has_slash piece = false ->
    In c (Posix.split_from piece s) -> Posix.has_slash c = false.
Proof.
  induction s as [|a s IH]; intros piece c Hp Hin.
  - destruct Hin as [<-|[]]. exact Hp.
  - cbn [Posix.split_from] in Hin.
    destruct (Ascii.eqb a Posix.SLASH) eqn:E.
    + destruct Hin as [<-|Hin]; [exact Hp|].
      now apply (IH EmptyString c).
    + apply (IH _ c) in Hin; [exact Hin|].
      rewrite has_slash_app, Hp. cbn [Posix.has_slash orb]. now rewrite E.
Qed.

Lemma in_removelast {A : Type} (l : list A) (x : A) :
  In x (removelast l) -> In x l.
Proof.
  induction l as [|y l IH]; [trivial|]. cbn.
  destruct l as [|z l]; [intros []|].
  intros [<-|H]; [now left | right; now apply IH].
Qed.

Lemma no_slash_kept (c : string) :
  String.eqb c EmptyString = false -> Posix.has_slash c = false -> kept c.
Proof.
  intros Hn Hs. split.
  - now apply String.eqb_neq.
  - destruct c as [|a c]; [reflexivity|]. cbn in Hs |- *.
    now apply orb_false_iff in Hs as (-> & _).
Qed.

Lemma norm_comps_kept (initial : nat) (comps : list string) :
  forall new_comps,
    (forall c, In c comps -> Posix.has_slash c = false) ->
    (forall c, In c new_comps -> kept c) ->
    forall c, In c (Posix.norm_comps initial comps new_comps) -> kept c.
Proof.
  induction comps as [|comp rest IH]; intros new_comps Hc Hn c Hin.
  - now apply Hn.
  - cbn [Posix.norm_comps] in Hin.
    assert (Hrest : forall x, In x rest -> Posix.has_slash x = false).
    { intros x Hx. apply Hc. now right. }
    destruct (String.eqb comp EmptyString || String.eqb comp ".") eqn:E.
    { now apply (IH new_comps). }
    apply orb_false_iff in E as (E & _).
    match type of Hin with
    | In _ (if ?b then _ else _) => destruct b
    end.
    + apply (IH (new_comps ++ [comp])); trivial.
      intros x Hx. apply in_app_or in Hx as [Hx|[<-|[]]]; [now apply Hn|].
      apply no_slash_kept; [exact E|]. apply Hc. now left.
    + destruct (negb (Posix.is_empty new_comps)).
      * apply (IH (removelast new_comps)); trivial.
        intros x Hx. now apply Hn, in_removelast.
      * now apply (IH new_comps).
Qed.

Lemma join_with_kept (l : list string) :
  (forall c, In c l -> kept c) ->
  Posix.starts_with_slash (Posix.join_with "/" l) = false.
Proof.
  destruct l as [|x l]; [reflexivity|]. intros H.
  destruct (H x (or_introl eq_refl)) as (Hn & Hs). cbn [Posix.join_with].
  destruct l as [|y l]; [exact Hs|].
  destruct x as [|a x]; [congruence | exact Hs].
Qed.

(** A path with one slash in front, or three or more, is normalised to
    a path with exactly one. *)
Lemma normpath_single (s : string) :
  Posix.initial_slashes s = 1 ->
  exists q,
    Posix.normpath s = String "/" q /\ Posix.starts_with_slash q = false.
Proof.
  intros H. destruct s as [|a s]; [discriminate H|].
  unfold Posix.normpath. rewrite H. cbn [Posix.slashes append].
  eexists. split; [reflexivity|].
  apply join_with_kept, norm_comps_kept; [|intros c []].
  intros c Hin.
  now apply (split_from_no_slash (String a s) EmptyString c).
Qed.

(** Exactly two slashes in front stay. *)
Lemma normpath_double (q : string) :
  Posix.starts_with_slash q = false ->
  exists q',
    Posix.normpath (String "/" (String "/" q)) = String "/" (String "/" q').
Proof.
  intros Hq. unfold Posix.normpath.
  assert (H : Posix.initial_slashes (String "/" (String "/" q)) = 2).
  { unfold Posix.initial_slashes.
    change (Posix.starts_with_slash (String "/" (String "/" q))) with true.
    change (String "/" (String "/" q)) with ("//" ++ q)%string at 1.
    rewrite prefix_app. cbv iota.
    destruct (String.prefix "///" (String "/" (String "/" q))) eqn:E;
      [|reflexivity].
    apply prefix_inv in E as (r & Hr). cbn in Hr. injection Hr as ->.
    discriminate Hq. }
  rewrite H. cbn [Posix.slashes append]. eexists. reflexivity.
Qed.

Lemma normpath_not_empty (s : string) : Posix.normpath s <> EmptyString.
Proof.
  unfold Posix.normpath. destruct s as [|a s]; [discriminate|].
  destruct (_ ++ _)%string; discriminate.
Qed.

(** ** [FindRepoDir] from its argument *)

(** X15.  [FindRepoDir] returns, whatever the file system holds, when
    the path to normalise (the argument, after the current directory
    when it is relative) starts with one slash, or with three or more:
    as many passes as the normalised path has characters are enough. *)
Theorem X15_FindRepoDir_terminates (fs : filesystem) (cwd : string)
  (path : option string) (fuel : nat) :
  let p := match path with None => cwd | Some p => p end in
  Posix.initial_slashes
    (if Posix.starts_with_slash p then p else Posix.join cwd p) = 1 ->
  String.length (Posix.abspath cwd p) <= fuel ->
  exists r, FindRepoDir fs cwd fuel path = Some r.
Proof.
  intros p Hi Hl. unfold FindRepoDir. fold p. unfold Posix.abspath in *.
  destruct (normpath_single _ Hi) as (q & Hq & Hs). rewrite Hq in Hl |- *.
  pose proof (FindRepoDir_loop_ends fs fuel q Hs Hl) as H.
  destruct (FindRepoDir_loop fs fuel (String "/" q)) as [r|];
    [now exists r | congruence].
Qed.

Lemma X15_FindRepoDir_terminates_witness :
  exists r,
    FindRepoDir repo_tree "/home/u/trunk/src" 30
      (Some "scripts/../scripts/bin") = Some r.
Proof.
  refine (X15_FindRepoDir_terminates repo_tree "/home/u/trunk/src"
            (Some "scripts/../scripts/bin") 30 eq_refl _).
  vm_compute. lia.
Defined.

(** X16.  What [FindRepoDir] returns is [.repo] joined to the normalised
    path or to one of the directories above it, it is a directory, and
    no nearer directory has a [.repo].  The path to which [.repo] was
    joined is not the one-character path [/]. *)
Theorem X16_FindRepoDir_nearest (fs : filesystem) (cwd : string)
  (path : option string) (fuel : nat) (d : string) :
  let start :=
    Posix.abspath cwd (match path with None => cwd | Some p => p end) in
  FindRepoDir fs cwd fuel path = Some (Some d) ->
  exists k,
    d = Posix.join (Nat.iter k Posix.dirname start) ".repo" /\
    isdir fs d = true /\
    Nat.iter k Posix.dirname start <> "/"%string /\
    forall j, j < k ->
      isdir fs (Posix.join (Nat.iter j Posix.dirname start) ".repo") = false.
Proof.
  intros start H. exact (FindRepoDir_loop_nearest fs fuel start d H).
Qed.

Lemma X16_FindRepoDir_nearest_witness :
  exists k,
    "/home/u/trunk/.repo"%string =
      Posix.join
        (Nat.iter k Posix.dirname
           (Posix.abspath "/home/u/trunk/src" "scripts"))
        ".repo" /\
    isdir repo_tree "/home/u/trunk/.repo" = true /\
    Nat.iter k Posix.dirname (Posix.abspath "/home/u/trunk/src" "scripts")
      <> "/"%string /\
    forall j, j < k ->
      isdir repo_tree
        (Posix.join
           (Nat.iter j Posix.dirname
              (Posix.abspath "/home/u/trunk/src" "scripts"))
           ".repo") = false.
Proof.
  exact (X16_FindRepoDir_nearest repo_tree "/home/u/trunk/src"
           (Some "scripts") 24 "/home/u/trunk/.repo" eq_refl).
Defined.

(** X17.  For a path that starts with exactly two slashes, which
    [os.path.abspath] keeps, [FindRepoDir] never returns when no
    directory has a [.repo]: the way up stops at [//], which is not
    [/]. *)
Theorem X17_FindRepoDir_double_slash (fs : filesystem) (cwd q : string)
  (fuel : nat) :
  Posix.starts_with_slash q = false ->
  (forall a, isdir fs (Posix.join a ".repo") = false) ->
  FindRepoDir fs cwd fuel (Some (String "/" (String "/" q))) = None.
Proof.
  intros Hq H. unfold FindRepoDir, Posix.abspath.
  change (Posix.starts_with_slash (String "/" (String "/" q))) with true.
  cbv iota. destruct (normpath_double q Hq) as (q' & ->).
  now apply FindRepoDir_loop_double_slash.
Qed.

Lemma X17_FindRepoDir_double_slash_witness :
  FindRepoDir bare_tree "/home/u" 1000
    (Some (String "/" (String "/" "tmp/work"))) = None.
Proof.
  exact (X17_FindRepoDir_double_slash bare_tree "/home/u" "tmp/work" 1000
           eq_refl (fun _ => eq_refl)).
Defined.

(** * [ListFiles] *)

Lemma pop_snoc {A : Type} (l : list A) (x : A) : pop (l ++ [x]) = Some (x, l).
Proof.
  induction l as [|y l IH]; [reflexivity|]. cbn. now rewrite IH.
Qed.

Lemma pop_inv {A : Type} (l rest : list A) (x : A) :
  pop l = Some (x, rest) -> l = rest ++ [x].
Proof.
  revert rest x. induction l as [|y l IH]; intros rest x H; [discriminate|].
  cbn in H. destruct (pop l) as [[z r]|] eqn:E.
  - injection H as <- <-. cbn. f_equal. now apply IH.
  - injection H as <- <-. destruct l as [|z l]; [reflexivity|].
    cbn in E. now destruct (pop l) as [[? ?]|].
Qed.

(** One pass over the names of a directory appends its files and its
    sub-directories, in the order of the names. *)
Lemma scan_names_spec (fs : filesystem) (directory : string)
  (names : list string) :
  forall files_list directories,
    scan_names fs directory names files_list directories =
      (files_list
         ++ filter (isfile fs) (map (Posix.join directory) names),
       directories
         ++ filter (fun p => negb (isfile fs p) && isdir fs p)
              (map (Posix.join directory) names)).
Proof.
  induction names as [|name names IH]; intros files_list directories.
  - cbn. now rewrite !app_nil_r.
  - cbn [scan_names map filter].
    destruct (isfile fs (Posix.join directory name)); cbn [negb andb].
    + rewrite IH, <- app_assoc. reflexivity.
    + destruct (isdir fs (Posix.join directory name)).
      * rewrite IH, <- app_assoc. reflexivity.
      * apply IH.
Qed.

Lemma in_filter_join (f : string -> bool) (directory p : string)
  (names : list string) :
  In p (filter f (map (Posix.join directory) names)) <->
  exists name, In name names /\ p = Posix.join directory name /\ f p = true.
Proof.
  rewrite filter_In, in_map_iff. split.
  - intros ((name & <- & Hin) & Hf). now exists name.
  - intros (name & Hin & -> & Hf). split; [now exists name | exact Hf].
Qed.

Lemma ListFiles_loop_more (fs : filesystem) (fuel : nat) :
  forall directories files_list r,
    ListFiles_loop fs fuel directories files_list = Some r ->
    ListFiles_loop fs (S fuel) directories files_list = Some r.
Proof.
  induction fuel as [|fuel IH]; intros directories files_list r H;
    [discriminate|].
  cbn [ListFiles_loop] in H |- *.
  destruct (pop directories) as [[directory directories']|]; [|exact H].
  destruct (listdir fs directory) as [e|names]; [exact H|].
  destruct (scan_names fs directory names files_list directories')
    as [files_list' directories''].
  now apply IH.
Qed.

Lemma ListFiles_loop_mono (fs : filesystem) (fuel fuel' : nat)
  (directories files_list : list string) (r : outcome (list string)) :
  fuel <= fuel' ->
  ListFiles_loop fs fuel directories files_list = Some r ->
  ListFiles_loop fs fuel' directories files_list = Some r.
Proof.
  induction 1 as [|fuel' _ IH]; [trivial|].
  intros H. now apply ListFiles_loop_more, IH.
Qed.

Section Walk.
Variable fs : filesystem.
Variable base_dir : string.

Lemma walk_inv_start : walk_inv fs base_dir [base_dir] [] [].
Proof.
  split.
  - intros d [[<-|[]]|[]]. constructor.
  - intros p [].
  - intros d names name [].
  - intros d names name [].
  - left. now left.
  - intros d [].
Qed.

Lemma walk_inv_step (rest files_list finished names : list string)
  (directory : string) :
  walk_inv fs base_dir (rest ++ [directory]) files_list finished ->
  listdir fs directory = inr names ->
  walk_inv fs base_dir
    (rest ++ filter (fun p => negb (isfile fs p) && isdir fs p)
               (map (Posix.join directory) names))
    (files_list ++ filter (isfile fs) (map (Posix.join directory) names))
    (directory :: finished).
Proof.
  intros [Hv Hs Hf Hd Hb Hok] Hl.
  assert (Hdir : visited fs base_dir directory).
  { apply Hv. left. apply in_or_app. right. now left. }
  split.
  - intros d [Hin|[<-|Hin]]; [|exact Hdir|apply Hv; now right].
    apply in_app_or in Hin as [Hin|Hin].
    + apply Hv. left. apply in_or_app. now left.
    + apply in_filter_join in Hin as (name & Hin & -> & Hp).
      apply andb_true_iff in Hp as (Hnf & Hid).
      apply negb_true_iff in Hnf.
      now apply (visited_entry fs base_dir directory names name).
  - intros p Hin. apply in_app_or in Hin as [Hin|Hin].
    + destruct (Hs p Hin) as (d & ns & name & Hd' & Hl' & Hn & Hp & Hi).
      exists d, ns, name. repeat split; trivial. now right.
    + apply in_filter_join in Hin as (name & Hin & -> & Hp).
      exists directory, names, name. repeat split; trivial. now left.
  - intros d ns name [<-|Hin] Hl' Hn Hi; apply in_or_app.
    + right. rewrite Hl in Hl'. injection Hl' as <-.
      apply in_filter_join. now exists name.
    + left. now apply (Hf d ns name).
  - intros d ns name [<-|Hin] Hl' Hn Hi Hid.
    + left. apply in_or_app. right. rewrite Hl in Hl'. injection Hl' as <-.
      apply in_filter_join. exists name. repeat split; trivial.
      now rewrite Hi, Hid.
    + destruct (Hd d ns name Hin Hl' Hn Hi Hid) as [Hin'|Hin'].
      * apply in_app_or in Hin' as [Hin'|[<-|[]]].
        -- left. apply in_or_app. now left.
        -- right. now left.
      * right. now right.
  - destruct Hb as [Hin|Hin].
    + apply in_app_or in Hin as [Hin|[<-|[]]].
      * left. apply in_or_app. now left.
      * right. now left.
    + right. now right.
  - intros d [<-|Hin]; [now exists names | now apply Hok].
Qed.

Lemma ListFiles_loop_inv (fuel : nat) :
  forall directories files_list finished r,
    walk_inv fs base_dir directories files_list finished ->
    ListFiles_loop fs fuel directories files_list = Some r ->
    match r with
    | Ret files => exists finished', walk_inv fs base_dir [] files finished'
    | Raise e =>
        exists d, visited fs base_dir d /\ listdir fs d = inl e
    end.
Proof.
  induction fuel as [|fuel IH]; intros directories files_list finished r Hinv H;
    [discriminate|].
  cbn [ListFiles_loop] in H.
  destruct (pop directories) as [[directory rest]|] eqn:Ep.
  - apply pop_inv in Ep. subst directories.
    destruct (listdir fs directory) as [e|names] eqn:El.
    + injection H as <-. exists directory. split; [|exact El].
      apply (walk_visited _ _ _ _ _ Hinv). left. apply in_or_app. right. now left.
    + rewrite scan_names_spec in H.
      exact (IH _ _ _ r (walk_inv_step _ _ _ _ _ Hinv El) H).
  - injection H as <-. destruct directories as [|x l].
    + now exists finished.
    + cbn in Ep. now destruct (pop l) as [[? ?]|].
Qed.

Lemma walk_inv_end (files finished : list string) :
  walk_inv fs base_dir [] files finished ->
  forall d, visited fs base_dir d -> In d finished.
Proof.
  intros [Hv Hs Hf Hd Hb Hok] d Hvis.
  induction Hvis as [|d names name _ IH Hl Hn Hi Hid].
  - now destruct Hb as [[]|Hb].
  - now destruct (Hd d names name IH Hl Hn Hi Hid) as [[]|Hin].
Qed.

Lemma ends_nil : ends fs [].
Proof. intros files_list. now exists 1, (Ret files_list). Qed.

Lemma ends_app (more : list string) :
  (forall d, In d more ->
             forall rest, ends fs rest -> ends fs (rest ++ [d])) ->
  forall rest, ends fs rest -> ends fs (rest ++ more).
Proof.
  induction more as [|d more IH]; intros H rest Hr.
  - now rewrite app_nil_r.
  - change (d :: more) with ([d] ++ more). rewrite app_assoc.
    apply IH.
    + intros d' Hin. apply H. now right.
    + apply H; [now left | exact Hr].
Qed.

Lemma finite_below_ends (d : string) :
  finite_below fs d -> forall rest, ends fs rest -> ends fs (rest ++ [d]).
Proof.
  induction 1 as [d _ IH]. intros rest Hr files_list.
  destruct (listdir fs d) as [e|names] eqn:El.
  - exists 1, (Raise e). cbn [ListFiles_loop]. now rewrite pop_snoc, El.
  - assert (He : ends fs (rest ++ filter (fun p => negb (isfile fs p) && isdir fs p)
                                 (map (Posix.join d) names))).
    { apply ends_app; [|exact Hr].
      intros p Hin. apply in_filter_join in Hin as (name & Hin & -> & Hp).
      apply andb_true_iff in Hp as (Hnf & Hid). apply negb_true_iff in Hnf.
      now apply (IH names name). }
    destruct (He (files_list ++ filter (isfile fs) (map (Posix.join d) names)))
      as (fuel & r & Hrun).
    exists (S fuel), r. cbn [ListFiles_loop].
    now rewrite pop_snoc, El, scan_names_spec.
Qed.

Lemma visited_prefix :
  (forall d names name,
      listdir fs d = inr names -> In name names ->
      Posix.starts_with_slash name = false) ->
  forall d, visited fs base_dir d -> exists t, d = (base_dir ++ t)%string.
Proof.
  intros Hnames d Hvis. induction Hvis as [|d names name _ (t & ->) Hl Hn _ _].
  - exists EmptyString. now rewrite append_nil_r.
  - pose proof (Hnames _ _ _ Hl Hn) as Hs.
    unfold Posix.join. rewrite Hs.
    destruct (base_dir ++ t)%string eqn:E.
    + destruct base_dir; [|discriminate E]. now exists name.
    + rewrite <- E. destruct (Posix.ends_with_slash (base_dir ++ t)).
      * exists (t ++ name)%string. now rewrite append_assoc.
      * exists (t ++ "/" ++ name)%string. now rewrite append_assoc.
Qed.

Lemma join_extends (d name : string) :
  Posix.starts_with_slash name = false ->
  exists t, Posix.join d name = (d ++ t)%string.
Proof.
  intros Hs. unfold Posix.join. rewrite Hs. destruct d as [|c d].
  - now exists name.
  - destruct (Posix.ends_with_slash (String c d)); eexists; reflexivity.
Qed.

End Walk.

(** X18.  What [ListFiles] returns is exactly the files of the
    directories it goes through: a path is in the list if and only if it
    is the join of a visited directory with one of the names listed in
    it, and is a file.  Entries that are neither files nor directories
    are left out, and nothing below a path that is a file is listed. *)
Theorem X18_ListFiles_exact (fs : filesystem) (fuel : nat)
  (base_dir : string) (files : list string) :
  ListFiles fs fuel base_dir = Some (Ret files) ->
  forall p,
    In p files <->
    exists d names name,
      visited fs base_dir d /\ listdir fs d = inr names /\ In name names /\
      p = Posix.join d name /\ isfile fs p = true.
Proof.
  intros H p. unfold ListFiles in H.
  destruct (ListFiles_loop_inv fs base_dir fuel _ _ _ _
              (walk_inv_start fs base_dir) H) as (finished & Hinv).
  split.
  - intros Hin.
    destruct (walk_sound _ _ _ _ _ Hinv p Hin)
      as (d & names & name & Hd & Hl & Hn & Hp & Hi).
    exists d, names, name. repeat split; trivial.
    apply (walk_visited _ _ _ _ _ Hinv). now right.
  - intros (d & names & name & Hv & Hl & Hn & -> & Hi).
    apply (walk_files _ _ _ _ _ Hinv d names name); trivial.
    now apply (walk_inv_end fs base_dir files finished).
Qed.

Lemma X18_ListFiles_exact_witness :
  In "/t/d/b"%string ["/t/a"; "/t/d/b"]%string <->
  exists d names name,
    visited small_tree "/t" d /\ listdir small_tree d = inr names /\
    In name names /\ "/t/d/b"%string = Posix.join d name /\
    isfile small_tree "/t/d/b" = true.
Proof.
  exact (X18_ListFiles_exact small_tree 5 "/t" ["/t/a"; "/t/d/b"]%string
           eq_refl "/t/d/b"%string).
Defined.

(** X19.  [ListFiles] ends when the directories under [base_dir] form a
    finite tree: some number of passes is enough, and any larger number
    gives the same result. *)
Theorem X19_ListFiles_terminates (fs : filesystem) (base_dir : string) :
  finite_below fs base_dir ->
  exists fuel r,
    forall fuel', fuel <= fuel' -> ListFiles fs fuel' base_dir = Some r.
Proof.
  intros H.
  destruct (finite_below_ends fs base_dir H [] (ends_nil fs) [])
    as (fuel & r & Hrun).
  exists fuel, r. intros fuel' Hle. unfold ListFiles.
  exact (ListFiles_loop_mono fs fuel fuel' _ _ r Hle Hrun).
Qed.

Lemma small_tree_finite : finite_below small_tree "/t".
Proof.
  constructor. intros names name Hl Hn Hf Hd.
  injection Hl as <-. destruct Hn as [<-|[<-|[<-|[]]]]; try discriminate.
  constructor. intros names' name' Hl' Hn' Hf' Hd'.
  injection Hl' as <-. destruct Hn' as [<-|[]]. discriminate.
Defined.

Lemma X19_ListFiles_terminates_witness :
  exists fuel r,
    forall fuel', fuel <= fuel' -> ListFiles small_tree fuel' "/t" = Some r.
Proof.
  exact (X19_ListFiles_terminates small_tree "/t" small_tree_finite).
Defined.

(** X20.  [ListFiles] returns a list only when the directories it
    reaches from [base_dir] form a finite tree and [os.listdir] has
    succeeded for every one of them. *)
Theorem X20_ListFiles_needs_finite_tree (fs : filesystem) (fuel : nat)
  (base_dir : string) (files : list string) :
  ListFiles fs fuel base_dir = Some (Ret files) ->
  finite_below fs base_dir /\
  forall d, visited fs base_dir d -> exists names, listdir fs d = inr names.
Proof.
  unfold ListFiles. intros H. split.
  - assert (G : forall directories files_list,
               ListFiles_loop fs fuel directories files_list
                 = Some (Ret files) ->
               forall d, In d directories -> finite_below fs d).
    { clear H. induction fuel as [|fuel IH]; intros directories files_list H;
        [discriminate|].
      cbn [ListFiles_loop] in H.
      destruct (pop directories) as [[directory rest]|] eqn:Ep.
      - apply pop_inv in Ep. subst directories.
        destruct (listdir fs directory) as [e|names] eqn:El; [discriminate|].
        rewrite scan_names_spec in H. specialize (IH _ _ H).
        intros d Hin. apply in_app_or in Hin as [Hin|[<-|[]]].
        + apply IH, in_or_app. now left.
        + constructor. intros names' name Hl Hn Hf Hd.
          rewrite El in Hl. injection Hl as <-.
          apply IH, in_or_app. right. apply in_filter_join.
          exists name. repeat split; trivial. now rewrite Hf, Hd.
      - destruct directories as [|x l]; [intros d []|].
        cbn in Ep. now destruct (pop l) as [[? ?]|]. }
    apply (G _ _ H). now left.
  - destruct (ListFiles_loop_inv fs base_dir fuel _ _ _ _
                (walk_inv_start fs base_dir) H) as (finished & Hinv).
    intros d Hd. apply (walk_listed _ _ _ _ _ Hinv).
    now apply (walk_inv_end fs base_dir files finished).
Qed.

Lemma X20_ListFiles_needs_finite_tree_witness :
  finite_below small_tree "/t" /\
  forall d, visited small_tree "/t" d ->
            exists names, listdir small_tree d = inr names.
Proof.
  exact (X20_ListFiles_needs_finite_tree small_tree 5 "/t"
           ["/t/a"; "/t/d/b"]%string eq_refl).
Defined.

(** X21.  [ListFiles] catches nothing: when [os.listdir] raises for
    [base_dir] (a missing directory, a file), the call raises that error;
    and an error that the call raises is one that [os.listdir] raised
    for a directory it went through.  The files found before are not
    returned. *)
Theorem X21_ListFiles_errors (fs : filesystem) (fuel : nat)
  (base_dir : string) (e : exn) :
  (listdir fs base_dir = inl e ->
   ListFiles fs (S fuel) base_dir = Some (Raise e)) /\
  (ListFiles fs fuel base_dir = Some (Raise e) ->
   exists d, visited fs base_dir d /\ listdir fs d = inl e).
Proof.
  split.
  - intros H. unfold ListFiles. cbn. now rewrite H.
  - intros H.
    exact (ListFiles_loop_inv fs base_dir fuel _ _ _ _
             (walk_inv_start fs base_dir) H).
Qed.

Lemma X21_ListFiles_errors_witness :
  ListFiles small_tree 2 "/t/a" = Some (Raise (OSError "ENOTDIR")) /\
  exists d, visited small_tree "/t/a" d /\
            listdir small_tree d = inl (OSError "ENOTDIR").
Proof.
  destruct (X21_ListFiles_errors small_tree 1 "/t/a" (OSError "ENOTDIR"))
    as [Hbase Hany].
  split; [exact (Hbase eq_refl) | exact (Hany eq_refl)].
Defined.

(** X22.  The paths that [ListFiles] returns are not relative to
    [base_dir]: each of them starts with [base_dir] itself, as long as
    no listed name starts with a slash (as is the case of what
    [os.listdir] returns). *)
Theorem X22_ListFiles_paths_start_with_base (fs : filesystem) (fuel : nat)
  (base_dir : string) (files : list string) :
  (forall d names name,
      listdir fs d = inr names -> In name names ->
      Posix.starts_with_slash name = false) ->
  ListFiles fs fuel base_dir = Some (Ret files) ->
  forall p, In p files -> exists t, p = (base_dir ++ t)%string.
Proof.
  intros Hnames H p Hin. unfold ListFiles in H.
  destruct (ListFiles_loop_inv fs base_dir fuel _ _ _ _
              (walk_inv_start fs base_dir) H) as (finished & Hinv).
  destruct (walk_sound _ _ _ _ _ Hinv p Hin)
    as (d & names & name & Hd & Hl & Hn & -> & _).
  assert (Hv : visited fs base_dir d).
  { apply (walk_visited _ _ _ _ _ Hinv). now right. }
  destruct (visited_prefix fs base_dir Hnames d Hv) as (t & ->).
  destruct (join_extends (base_dir ++ t) name (Hnames _ _ _ Hl Hn))
    as (t' & ->).
  exists (t ++ t')%string. now rewrite append_assoc.
Qed.

Lemma small_tree_names (d : string) (names : list string) (name : string) :
  listdir small_tree d = inr names -> In name names ->
  Posix.starts_with_slash name = false.
Proof.
  unfold small_tree, listdir.
  destruct (String.eqb d "/t").
  - intros [= <-] [<-|[<-|[<-|[]]]]; reflexivity.
  - destruct (String.eqb d "/t/d"); [|discriminate].
    intros [= <-] [<-|[]]. reflexivity.
Defined.

Lemma X22_ListFiles_paths_start_with_base_witness :
  exists t, "/t/d/b"%string = ("/t" ++ t)%string.
Proof.
  exact (X22_ListFiles_paths_start_with_base small_tree 5 "/t"
           ["/t/a"; "/t/d/b"]%string small_tree_names eq_refl "/t/d/b"%string
           (or_intror (or_introl eq_refl))).
Defined.

(** * [ReinterpretPathForChroot] *)

Lemma replace_from_length (old : string) (s : string) :
  forall skip,
    String.length (Str.replace_from old EmptyString skip s) <= String.length s.
Proof.
  induction s as [|c s IH]; intros skip; [cbn; lia|].
  cbn [Str.replace_from String.length]. destruct skip as [|k].
  - destruct (String.prefix old (String c s)).
    + cbn [append]. specialize (IH (String.length old - 1)). lia.
    + cbn [String.length]. specialize (IH 0). lia.
  - specialize (IH k). lia.
Qed.

Lemma interleave_empty (s : string) : Str.interleave EmptyString s = s.
Proof. induction s as [|c s IH]; cbn; now rewrite ?IH. Qed.

(** Taking text out does not make a text longer. *)
Lemma replace_length (s old : string) :
  String.length (Str.replace s old EmptyString) <= String.length s.
Proof.
  destruct old as [|a old]; cbn [Str.replace].
  - now rewrite interleave_empty.
  - apply replace_from_length.
Qed.

Lemma replace_from_skip (old new o s : string) :
  Str.replace_from old new (String.length o) (o ++ s) =
    Str.replace_from old new 0 s.
Proof.
  induction o as [|c o IH]; [reflexivity|]. exact IH.
Qed.

Lemma replace_from_absent (old new s : string) :
  occurs old s = false -> Str.replace_from old new 0 s = s.
Proof.
  induction s as [|c s IH]; [reflexivity|]. intros H.
  cbn [occurs] in H. apply orb_false_iff in H as (Hp & Ho).
  cbn [Str.replace_from]. rewrite Hp, (IH Ho). reflexivity.
Qed.

(** The text [old] in front is taken out, and nothing else when it does
    not occur again. *)
Lemma replace_front (old s : string) :
  old <> EmptyString ->
  occurs old s = false ->
  Str.replace (old ++ s) old EmptyString = s.
Proof.
  intros Hn Ho. destruct old as [|a old]; [congruence|].
  cbn [Str.replace].
  change (String a old ++ s)%string with (String a (old ++ s)).
  cbn [Str.replace_from].
  change (String a (old ++ s)) with (String a old ++ s)%string.
  rewrite prefix_app. cbn [append].
  replace (String.length (String a old) - 1) with (String.length old)
    by (cbn [String.length]; lia).
  rewrite replace_from_skip. now apply replace_from_absent.
Qed.

Lemma from_1_shorter (s t : string) :
  t <> EmptyString ->
  String.length s <= String.length t ->
  String.eqb (Str.from_1 s) t = false.
Proof.
  intros Hn Hl. apply String.eqb_neq. intros E.
  apply (f_equal String.length) in E.
  destruct t as [|b t]; [congruence|].
  destruct s as [|a s]; cbn in E, Hl; [discriminate | lia].
Qed.

(** X23.  [ReinterpretPathForChroot] never raises its own error, the one
    for a path outside the source tree: the text it compares with the
    absolute path is always shorter.  When it returns, it has raised
    what [os.path.join] raises for [None] (no [.repo] above the path, or
    no [USER] in the environment), or it returns a path made from
    [/home], the user, [trunk] and what is left of the absolute path. *)
Theorem X23_Reinterpret_never_outside (attribute_error : exn)
  (exception : string -> exn) (fs : filesystem) (cwd : string) (fuel : nat)
  (user : option string) (path : string) (r : outcome string) :
  ReinterpretPathForChroot attribute_error exception fs cwd fuel user path
    = Some r ->
  (r = Raise attribute_error /\
   (FindRepoDir fs cwd fuel (Some path) = Some None \/ user = None)) \/
  (exists repo_dir u,
      FindRepoDir fs cwd fuel (Some path) = Some (Some repo_dir) /\
      user = Some u /\
      r = Ret (Posix.join (Posix.join (Posix.join "/home" u) "trunk")
                 (Str.from_1
                    (Str.replace (Posix.abspath cwd path)
                       (Posix.abspath cwd (Posix.join repo_dir ".."))
                       EmptyString)))).
Proof.
  unfold ReinterpretPathForChroot.
  destruct (FindRepoDir fs cwd fuel (Some path)) as [[repo_dir|]|];
    [| intros [= <-]; left; split; [reflexivity | now left] | discriminate].
  rewrite from_1_shorter;
    [| apply normpath_not_empty | apply replace_length].
  destruct user as [u|]; intros [= <-].
  - right. now exists repo_dir, u.
  - left. split; [reflexivity | now right].
Qed.

Lemma X23_Reinterpret_never_outside_witness :
  exists repo_dir u,
    FindRepoDir repo_tree "/home/u/trunk/src" 30 (Some "scripts/x.py")
      = Some (Some repo_dir) /\
    Some "bob" = Some u /\
    Ret "/home/bob/trunk/src/scripts/x.py" =
      Ret (Posix.join (Posix.join (Posix.join "/home" u) "trunk")
             (Str.from_1
                (Str.replace
                   (Posix.abspath "/home/u/trunk/src" "scripts/x.py")
                   (Posix.abspath "/home/u/trunk/src"
                      (Posix.join repo_dir ".."))
                   EmptyString))).
Proof.
  destruct (X23_Reinterpret_never_outside KeyboardInterrupt RunCommandError
              repo_tree "/home/u/trunk/src" 30 (Some "bob") "scripts/x.py"
              (Ret "/home/bob/trunk/src/scripts/x.py") eq_refl)
    as [(H & _)|H]; [discriminate H | exact H].
Defined.

(** X24.  For a path [root/rel] under the directory [root] that holds
    the nearest [.repo], where the text of [root] does not occur again
    in [/rel], [ReinterpretPathForChroot] returns
    [/home/<user>/trunk/rel]. *)
Theorem X24_Reinterpret_inside (attribute_error : exn)
  (exception : string -> exn) (fs : filesystem) (cwd : string) (fuel : nat)
  (u path repo_dir root rel : string) :
  FindRepoDir fs cwd fuel (Some path) = Some (Some repo_dir) ->
  Posix.abspath cwd (Posix.join repo_dir "..") = root ->
  Posix.abspath cwd path = (root ++ "/" ++ rel)%string ->
  occurs root ("/" ++ rel) = false ->
  Posix.starts_with_slash rel = false ->
  u <> EmptyString ->
  Posix.starts_with_slash u = false ->
  Posix.ends_with_slash u = false ->
  ReinterpretPathForChroot attribute_error exception fs cwd fuel (Some u) path
    = Some (Ret ("/home/" ++ u ++ "/trunk/" ++ rel)%string).
Proof.
  intros Hf Hroot Hpath Hocc Hrel Hu Hus Hue.
  unfold ReinterpretPathForChroot. rewrite Hf, Hroot, Hpath.
  assert (Hn : root <> EmptyString).
  { rewrite <- Hroot. apply normpath_not_empty. }
  rewrite (replace_front root ("/" ++ rel) Hn Hocc).
  change (Str.from_1 ("/" ++ rel)) with rel.
  replace (String.eqb rel (root ++ "/" ++ rel)) with false.
  - do 2 f_equal.
    rewrite (join_relative "/home" u) by (discriminate || trivial).
    rewrite (join_relative ("/home" ++ "/" ++ u) "trunk").
    + rewrite join_relative.
      * rewrite !append_assoc. reflexivity.
      * discriminate.
      * rewrite <- !append_assoc. now rewrite ends_with_slash_app.
      * exact Hrel.
    + discriminate.
    + rewrite <- append_assoc. now rewrite ends_with_slash_app.
    + reflexivity.
  - symmetry. apply String.eqb_neq. intros E.
    apply (f_equal String.length) in E. rewrite !length_append in E.
    cbn in E. lia.
Qed.

Lemma X24_Reinterpret_inside_witness :
  ReinterpretPathForChroot KeyboardInterrupt RunCommandError repo_tree
    "/home/u/trunk/src" 30 (Some "bob") "scripts/x.py"
    = Some (Ret ("/home/" ++ "bob" ++ "/trunk/" ++ "src/scripts/x.py")%string).
Proof.
  refine (X24_Reinterpret_inside KeyboardInterrupt RunCommandError
            repo_tree "/home/u/trunk/src" 30 "bob" "scripts/x.py"
            "/home/u/trunk/.repo" "/home/u/trunk" "src/scripts/x.py"
            eq_refl eq_refl eq_refl eq_refl eq_refl _ eq_refl eq_refl).
  discriminate.
Defined.
